(** * tldr-rss: the feed fetcher, the article scraper, the aggregator and
      the output writers, embedded from [src/news.ts], [src/index.ts],
      [src/rss.ts] and the HTML writer that [index.ts] imports as
      [./html.js].

    JavaScript values are modelled as the code uses them: strings as
    [string] (one [ascii] per code unit, so the model covers code units
    below 256), numbers that the code only ever uses as integers as [Z],
    [NaN] and [undefined]/[null] as [None], thrown values as a record,
    arrays that are mutated through several names as cells of a store.
    Logging ([logger.info], [logger.debug], [logger.warn]) has no effect on
    control flow or data and is left out. *)

From Stdlib Require Import ZArith Lia Bool List String Ascii Permutation Sorted.
From stdpp Require Import base option list strings gmap.

Local Open Scope string_scope.
Local Open Scope list_scope.
Local Open Scope Z_scope.

(** ** JavaScript primitives used by the sources *)

Module JS.

(** [!s] is false exactly for a non-empty string. *)
Definition truthy (s : string) : bool :=
  match s with
  | EmptyString => false
  | String _ _ => true
  end.

(** Truthiness of a value that is a string, [undefined] or [null]. *)
Definition truthy_opt (o : option string) : bool :=
  match o with
  | Some s => truthy s
  | None => false
  end.

(** [a || b] for a possibly undefined string [a] and a string [b]. *)
Definition or_else (a : option string) (b : string) : string :=
  match a with
  | Some s => if truthy s then s else b
  | None => b
  end.

(** [s.startsWith(p)]. *)
Fixpoint startsWith (s p : string) : bool :=
  match p, s with
  | EmptyString, _ => true
  | String _ _, EmptyString => false
  | String a p', String b s' => if Ascii.eqb a b then startsWith s' p' else false
  end.

(** [s.includes(p)]: some suffix of [s] starts with [p]. *)
Fixpoint includes (s p : string) : bool :=
  startsWith s p ||
  match s with
  | EmptyString => false
  | String _ s' => includes s' p
  end.

(** White space skipped by [parseInt] (ECMAScript StrWhiteSpaceChar),
    for code units below 256: TAB, LF, VT, FF, CR, SP and NBSP. *)
Definition isWhiteSpace (c : ascii) : bool :=
  let n := nat_of_ascii c in
  ((9 <=? n)%nat && (n <=? 13)%nat) || (n =? 32)%nat || (n =? 160)%nat.

Fixpoint trimStart (s : string) : string :=
  match s with
  | EmptyString => EmptyString
  | String c s' => if isWhiteSpace c then trimStart s' else s
  end.

Definition digit (c : ascii) : option Z :=
  let n := Z.of_nat (nat_of_ascii c) in
  if (48 <=? n) && (n <=? 57) then Some (n - 48) else None.

(** The value of the longest prefix of decimal digits; [acc] is [None]
    until a first digit has been read. *)
Fixpoint digits (acc : option Z) (s : string) : option Z :=
  match s with
  | EmptyString => acc
  | String c s' =>
      match digit c with
      | Some d => digits (Some (10 * default 0 acc + d)) s'
      | None => acc
      end
  end.

(** [parseInt(s, 10)]; [None] is [NaN].  The mathematical value is kept
    exactly (JavaScript rounds it to a double above 2^53). *)
Definition parseInt (s : string) : option Z :=
  match trimStart s with
  | String "-" r => Z.opp <$> digits None r
  | String "+" r => digits None r
  | r => digits None r
  end.

(** [isNaN(x)] for the result of [parseInt]. *)
Definition isNaN (x : option Z) : bool :=
  match x with
  | Some _ => false
  | None => true
  end.

Definition msPerDay : Z := 86400000.

(** TimeClip: a time value beyond 8.64e15 ms is an invalid date. *)
Definition TimeClip (t : Z) : option Z :=
  if Z.abs t <=? 8640000000000000 then Some t else None.

(** [a >= b] on two [Date] objects: both are converted to their time
    values, and a comparison with [NaN] is false. *)
Definition Date_ge (a b : option Z) : bool :=
  match a, b with
  | Some x, Some y => y <=? x
  | _, _ => false
  end.

End JS.

(** ** Thrown values *)

(** The part of an HTTP error's [response] that [getRSSFeed] reads. *)
Record Response := {
  status : option Z;
  headers : option (gmap string string)
}.

(** A value caught by [catch (error: unknown)]: its [response] property
    when it has one, whether it is an [instanceof Error], and its
    [message]. *)
Record Thrown := {
  response : option Response;
  instanceofError : bool;
  message : string
}.

(** [new Error(msg)]. *)
Definition Error (msg : string) : Thrown :=
  {| response := None; instanceofError := true; message := msg |}.

(** ** Data model *)

(** An item of a parsed feed ([Parser.Item]): the two optional fields the
    aggregator reads. *)
Module Item.
Record t := { link : option string; isoDate : option string }.
End Item.

(** [Parser.Output]: the parsed feed document. *)
Record Output := { items : list Item.t }.

(** [News] of [types.ts], as [fetchNews] builds it. *)
Module News.
Record t := { title : string; link : string; content : string }.
End News.

(** [NewsWithDate = News & { date: string }], which is also the [Post] of
    the two writers. *)
Module Post.
Record t := { title : string; link : string; content : string; date : string }.
End Post.

(** ** The world a run acts on *)

(** A network request made by the run. *)
Inductive Request :=
| ParseURL (feed : string)   (* parser.parseURL(feed) *)
| AxiosGet (url : string).   (* axios.get(url) *)

Inductive Writer := Rss | Html.

(** What a writer was handed when it was called: its [feedName] and the
    contents of its [posts] array at that moment. *)
Record Handed := { writer : Writer; feedName : string; posts : list Post.t }.

(** Arrays are referred to by their address in the store, so that two
    names of one array see each other's updates. *)
Definition ref := nat.

Record World := {
  requests : list Request;              (* network requests so far, oldest first *)
  timeouts : list Z;                    (* delays in ms given to setTimeout, oldest first *)
  files : gmap string string;           (* files written by writeFile *)
  arrays : gmap ref (list Post.t);      (* the store of Post arrays *)
  next_ref : ref;                       (* next free address *)
  handed : list Handed                  (* writer calls so far, oldest first *)
}.

Definition set_requests (f : list Request → list Request) (w : World) : World :=
  {| requests := f (requests w); timeouts := timeouts w; files := files w;
     arrays := arrays w; next_ref := next_ref w; handed := handed w |}.
Definition set_timeouts (f : list Z → list Z) (w : World) : World :=
  {| requests := requests w; timeouts := f (timeouts w); files := files w;
     arrays := arrays w; next_ref := next_ref w; handed := handed w |}.
Definition set_files (f : gmap string string → gmap string string) (w : World) : World :=
  {| requests := requests w; timeouts := timeouts w; files := f (files w);
     arrays := arrays w; next_ref := next_ref w; handed := handed w |}.
Definition set_arrays (f : gmap ref (list Post.t) → gmap ref (list Post.t)) (w : World) : World :=
  {| requests := requests w; timeouts := timeouts w; files := files w;
     arrays := f (arrays w); next_ref := next_ref w; handed := handed w |}.
Definition set_next_ref (f : ref → ref) (w : World) : World :=
  {| requests := requests w; timeouts := timeouts w; files := files w;
     arrays := arrays w; next_ref := f (next_ref w); handed := handed w |}.
Definition set_handed (f : list Handed → list Handed) (w : World) : World :=
  {| requests := requests w; timeouts := timeouts w; files := files w;
     arrays := arrays w; next_ref := next_ref w; handed := f (handed w) |}.

Definition empty_world : World :=
  {| requests := []; timeouts := []; files := ∅; arrays := ∅; next_ref := 0%nat;
     handed := [] |}.

(** ** Computations: state and exceptions *)

(** How an async function ends: it resolves, it rejects with a thrown
    value, or the model ran out of loop fuel. *)
Inductive Outcome (A : Type) :=
| Ok (a : A)
| Throw (error : Thrown)
| OutOfFuel.
Arguments Ok {A} a.
Arguments Throw {A} error.
Arguments OutOfFuel {A}.

Definition M (A : Type) : Type := World → Outcome A * World.

Definition ret {A} (a : A) : M A := λ w, (Ok a, w).

Definition throw {A} (error : Thrown) : M A := λ w, (Throw error, w).

Definition bind {A B} (m : M A) (k : A → M B) : M B := λ w,
  match m w with
  | (Ok a, w') => k a w'
  | (Throw error, w') => (Throw error, w')
  | (OutOfFuel, w') => (OutOfFuel, w')
  end.

(** [try { m } catch (error) { h error }]. *)
Definition try_catch {A} (m : M A) (h : Thrown → M A) : M A := λ w,
  match m w with
  | (Throw error, w') => h error w'
  | r => r
  end.

Declare Scope js_scope.
Delimit Scope js_scope with js.
Notation "'let!' x ':=' m 'in' k" := (bind m (λ x, k))
  (at level 10, x name, m at level 100, k at level 200) : js_scope.
Notation "m ';;;' k" := (bind m (λ _, k))
  (at level 100, k at level 200, right associativity) : js_scope.
Local Open Scope js_scope.

(** [await new Promise((resolve) => setTimeout(resolve, ms))]. *)
Definition setTimeout (ms : Z) : M unit := λ w,
  (Ok tt, set_timeouts (λ l, l ++ [ms]) w).

(** [for (const x of l) body x]. *)
Fixpoint for_of {A} (l : list A) (body : A → M unit) : M unit :=
  match l with
  | [] => ret tt
  | x :: l' => body x ;;; for_of l' body
  end.

(** Array operations on the store. *)
Definition new_array : M ref := λ w,
  (Ok (next_ref w),
   set_next_ref S (set_arrays (insert (next_ref w) []) w)).

Definition read_array (r : ref) : M (list Post.t) := λ w,
  (Ok (default [] (arrays w !! r)), w).

Definition write_array (r : ref) (l : list Post.t) : M unit := λ w,
  (Ok tt, set_arrays (insert r l) w).

(** [r.push(...l)]. *)
Definition push (r : ref) (l : list Post.t) : M unit :=
  let! old := read_array r in write_array r (old ++ l).

(** ** The retrying feed fetcher: [getRSSFeed] of [news.ts] *)

Definition maxRetries : Z := 6.

(** [errorWithResponse?.response?.status === 429 ||
     (error instanceof Error && error.message.includes("Status code 429"))] *)
Definition is429Error (error : Thrown) : bool :=
  match response error with
  | Some r => match status r with Some n => n =? 429 | None => false end
  | None => false
  end
  || (instanceofError error && JS.includes (message error) "Status code 429").

(** [errorWithResponse.response?.headers?.["retry-after"]] *)
Definition retryAfter (error : Thrown) : option string :=
  match response error with
  | Some r => match headers r with Some h => h !! "retry-after" | None => None end
  | None => None
  end.

(** [retryAfter && !isNaN(parseInt(retryAfter, 10)) ? parseInt(retryAfter, 10) : 30] *)
Definition delaySeconds (error : Thrown) : Z :=
  match retryAfter error with
  | Some s =>
      if JS.truthy s && negb (JS.isNaN (JS.parseInt s))
      then default 0 (JS.parseInt s)
      else 30
  | None => 30
  end.

Definition delayMs (error : Thrown) : Z := delaySeconds error * 1000.

(** What one pass through the body of the [while] loop does when it does
    not throw: [return] from the function, or go round again. *)
Inductive LoopStep :=
| Return (out : Output)
| Continue (attemptCount : Z).

Section Fetcher.

(** [parser.parseURL]: the outcome of the [k]-th request of the run when
    it asks for [feed]; [inl] is a rejection. *)
Variable parseURL : nat → string → Thrown + Output.

Definition parser_parseURL (feed : string) : M Output := λ w,
  let w' := set_requests (λ l, l ++ [ParseURL feed]) w in
  match parseURL (List.length (requests w)) feed with
  | inl error => (Throw error, w')
  | inr out => (Ok out, w')
  end.

(** The body of the loop, lines 18 to 56. *)
Definition iteration (feed : string) (attemptCount : Z) : M LoopStep :=
  try_catch
    (let! out := parser_parseURL feed in ret (Return out))
    (λ error,
       let attemptCount := attemptCount + 1 in
       if negb (is429Error error) || (attemptCount >? maxRetries)
       then throw error
       else setTimeout (delayMs error) ;;; ret (Continue attemptCount)).

(** [while (attemptCount <= maxRetries) { ... }] followed by line 60. *)
Fixpoint while_loop (fuel : nat) (feed : string) (attemptCount : Z) : M Output :=
  if attemptCount <=? maxRetries then
    match fuel with
    | O => λ w, (OutOfFuel, w)
    | S fuel' =>
        let! step := iteration feed attemptCount in
        match step with
        | Return out => ret out
        | Continue attemptCount' => while_loop fuel' feed attemptCount'
        end
    end
  else throw (Error "Unexpected end of retry loop").

Definition getRSSFeed (feed : string) : M Output := while_loop 7 feed 0.

End Fetcher.

(** ** The document tree read by the scraper *)

(** A node of the parsed page.  [localName] and attribute names are as
    the HTML parser leaves them (lower case). *)
#[warnings="-register-all"]
Inductive Node :=
| Text (data : string)
| Comment (data : string)
| Element (localName : string) (attributes : list (string * string))
          (childNodes : list Node).

Module DOM.

(** [node.textContent] of an element: the data of its [Text]
    descendants, in tree order. *)
Fixpoint textContent (n : Node) : string :=
  match n with
  | Text data => data
  | Comment _ => EmptyString
  | Element _ _ childNodes => String.concat EmptyString (List.map textContent childNodes)
  end.

(** An element together with the chain of its element ancestors, nearest
    first: what [parentElement] walks. *)
Definition Located : Type := Node * list Node.

(** The element [n] and its element descendants in tree order, each with
    its ancestors; [ancestors] are those of [n]. *)
Fixpoint elements (ancestors : list Node) (n : Node) : list Located :=
  match n with
  | Element _ _ childNodes =>
      (n, ancestors) :: List.flat_map (elements (n :: ancestors)) childNodes
  | _ => []
  end.

Definition matches (selector : string) (e : Located) : bool :=
  match e.1 with
  | Element localName _ _ => String.eqb localName selector
  | _ => false
  end.

(** [document.querySelectorAll(selector)] for a type selector, on the
    document whose root element is [root]. *)
Definition querySelectorAll (selector : string) (root : Node) : list Located :=
  List.filter (matches selector) (elements [] root).

(** [e.querySelector(selector)]: the first matching descendant of [e],
    [e] itself excluded. *)
Definition querySelector (selector : string) (e : Located) : option Located :=
  head (List.filter (matches selector) (tail (elements e.2 e.1))).

Definition parentElement (e : Located) : option Located :=
  match e.2 with
  | p :: ancestors => Some (p, ancestors)
  | [] => None
  end.

Fixpoint lookup_attribute (name : string) (attrs : list (string * string))
  : option string :=
  match attrs with
  | [] => None
  | (k, v) :: attrs' => if String.eqb k name then Some v else lookup_attribute name attrs'
  end.

(** [e.getAttribute(name)]. *)
Definition getAttribute (name : string) (e : Located) : option string :=
  match e.1 with
  | Element _ attributes _ => lookup_attribute name attributes
  | _ => None
  end.

End DOM.

(** ** The article scraper: [fetchNews] of [news.ts] *)

(** The three values read off one [h3], lines 76 to 79. *)
Record Candidate := {
  cand_title : string;            (* header.textContent *)
  cand_link : option string;      (* header.parentElement?.getAttribute("href") *)
  cand_content : option string    (* ...parentElement?.querySelector("div")?.textContent *)
}.

Definition candidate (header : DOM.Located) : Candidate :=
  {| cand_title := DOM.textContent header.1;
     cand_link :=
       match DOM.parentElement header with
       | Some parent => DOM.getAttribute "href" parent
       | None => None
       end;
     cand_content :=
       match DOM.parentElement header with
       | Some parent =>
           match DOM.parentElement parent with
           | Some grandparent =>
               match DOM.querySelector "div" grandparent with
               | Some div => Some (DOM.textContent div.1)
               | None => None
               end
           | None => None
           end
       | None => None
       end |}.

(** [!title || !link || !content] *)
Definition skipped (c : Candidate) : bool :=
  negb (JS.truthy (cand_title c)) || negb (JS.truthy_opt (cand_link c))
  || negb (JS.truthy_opt (cand_content c)).

(** One pass of the loop of lines 75 to 90 over the array [news]. *)
Definition scrape_header (news : list News.t) (header : DOM.Located) : list News.t :=
  let c := candidate header in
  if skipped c then news
  else news ++ [ {| News.title := cand_title c;
                    News.link := default EmptyString (cand_link c);
                    News.content := default EmptyString (cand_content c) |} ].

(** Lines 70 to 92: the articles of a parsed document. *)
Definition scrape (doc : Node) : list News.t :=
  fold_left scrape_header (DOM.querySelectorAll "h3" doc) [].

Section Scraper.

(** [axios.get]: the outcome of the [k]-th request of the run when it
    asks for [url]; [inl] is a rejection (transport failure or a status
    outside 2xx), [inr] the response body. *)
Variable axios_get : nat → string → Thrown + string.

(** [new JSDOM(data).window.document], as its root element; [inl] when
    the constructor throws. *)
Variable JSDOM : string → Thrown + Node.

Definition axios_get_data (url : string) : M string := λ w,
  let w' := set_requests (λ l, l ++ [AxiosGet url]) w in
  match axios_get (List.length (requests w)) url with
  | inl error => (Throw error, w')
  | inr data => (Ok data, w')
  end.

Definition new_JSDOM (data : string) : M Node :=
  match JSDOM data with
  | inl error => throw error
  | inr doc => ret doc
  end.

Definition fetchNews (url : string) : M (list News.t) :=
  try_catch
    (let! data := axios_get_data url in
     let! doc := new_JSDOM data in
     ret (scrape doc))
    (λ _, ret []).

End Scraper.

(** ** The output writers: [rss.ts] and [html.ts] *)

Section Writers.

(** [new Date(s).getTime()]: the time value in ms, [None] for an
    invalid date ([NaN]). *)
Variable Date_parse : string → option Z.

(** The serialisation of [feedObject] by the [xml] package, and the
    page template of [writeHtmlFeed]; both are functions of the feed
    name and of the sorted posts. *)
Variable xml : string → list Post.t → string.
Variable htmlContent : string → list Post.t → string.

(** [new Date(second.date).getTime() - new Date(first.date).getTime()] *)
Definition compareFn (first second : Post.t) : option Z :=
  match Date_parse (Post.date second), Date_parse (Post.date first) with
  | Some s, Some f => Some (s - f)
  | _, _ => None
  end.

(** SortCompare of [Array.prototype.sort]: a [NaN] from the comparator
    counts as [+0]. *)
Definition SortCompare (x y : Post.t) : Z := default 0 (compareFn x y).

(** [Array.prototype.sort] is stable; with a consistent comparator its
    result is the one list that is ordered and keeps ties in their
    original order, which stable insertion computes.  (With invalid
    dates the comparator is not consistent and the order is
    implementation-defined; the aggregator never sorts such posts.) *)
Fixpoint insert_sorted (x : Post.t) (l : list Post.t) : list Post.t :=
  match l with
  | [] => [x]
  | y :: l' => if SortCompare x y <=? 0 then x :: l else y :: insert_sorted x l'
  end.

Definition sort (l : list Post.t) : list Post.t := foldr insert_sorted [] l.

(** [posts.sort(compareFn)]: sorts the array in place and returns it. *)
Definition array_sort (posts : ref) : M (list Post.t) :=
  let! l := read_array posts in
  write_array posts (sort l) ;;;
  ret (sort l).

(** The literal of line 91; it holds four double quotes. *)
Definition xml_declaration : string :=
  let q := String (ascii_of_nat 34) EmptyString in
  "<?xml version=" +:+ q +:+ "1.0" +:+ q +:+ " encoding=" +:+ q +:+ "UTF-8" +:+ q +:+ "?>".

Definition writeFile (path data : string) : M unit := λ w,
  (Ok tt, set_files (insert path data) w).

(** A writer is entered: the call is recorded with the contents that its
    [posts] array has at that moment.  The record is there to state what
    a writer was handed; the writers do not read it. *)
Definition enter (wr : Writer) (name : string) (posts : ref) : M unit := λ w,
  (Ok tt,
   set_handed (λ l, l ++ [ {| writer := wr; feedName := name;
                              posts := default [] (arrays w !! posts) |} ]) w).

(** [writeRssFeed(feedName, posts)]; [buildFeed(posts)] is the call
    that sorts. *)
Definition writeRssFeed (feedName : string) (posts : ref) : M unit :=
  enter Rss feedName posts ;;;
  let! l := read_array posts in
  if (List.length l =? 0)%nat
  then throw (Error ("No posts found for " +:+ feedName))
  else
    let! sortedPosts := array_sort posts in
    let feed := xml_declaration +:+ xml feedName sortedPosts in
    writeFile ("./static/" +:+ feedName +:+ ".rss") feed.

(** [writeHtmlFeed(feedName, posts, maxArticles)].  The template calls
    [toISOString] on every post's date, which throws a [RangeError] on
    an invalid date. *)
Definition writeHtmlFeed (feedName : string) (posts : ref) (maxArticles : nat)
  : M unit :=
  enter Html feedName posts ;;;
  let! l := read_array posts in
  if (List.length l =? 0)%nat
  then throw (Error ("No posts found for " +:+ feedName))
  else
    let! sorted := array_sort posts in
    let sortedPosts := take maxArticles sorted in
    if forallb (λ post, bool_decide (is_Some (Date_parse (Post.date post)))) sortedPosts
    then writeFile ("./static/" +:+ feedName +:+ ".html") (htmlContent feedName sortedPosts)
    else throw (Error "Invalid time value").

End Writers.

(** ** The feed aggregator: [index.ts] *)

Definition RSS_BASE_URL : string := "https://tldr.tech/api/rss".

(** [parseInt(process.env.MAX_DAYS || "10", 10)]; [None] is [NaN]. *)
Definition MAX_DAYS (env : gmap string string) : option Z :=
  JS.parseInt (JS.or_else (env !! "MAX_DAYS") "10").

Definition feeds : list string :=
  [ "tech"; "dev"; "ai"; "infosec"; "product"; "devops"; "founders"; "design";
    "marketing"; "crypto"; "fintech"; "data" ].

(** Lines 36 and 37: [now] is the time value of [new Date()].  [setDate]
    moves the date by whole days of local time, which in a zone with a
    fixed offset from UTC (such as UTC itself) is [msPerDay] each; a
    [NaN] argument or a result out of range gives an invalid date. *)
Definition cutoffDate (now : Z) (max_days : option Z) : option Z :=
  match max_days with
  | Some d => JS.TimeClip (now - d * JS.msPerDay)
  | None => None
  end.

Section Aggregator.

Variable parseURL : nat → string → Thrown + Output.
Variable axios_get : nat → string → Thrown + string.
Variable JSDOM : string → Thrown + Node.
Variable Date_parse : string → option Z.
Variable xml : string → list Post.t → string.
Variable htmlContent : string → list Post.t → string.

(** The callback of [rssNews.items.filter], lines 50 to 54. *)
Definition recent (cutoff : option Z) (item : Item.t) : bool :=
  match Item.isoDate item with
  | Some isoDate =>
      if negb (JS.truthy isoDate) then false
      else JS.Date_ge (Date_parse isoDate) cutoff
  | None => false
  end.

Definition recentItems (cutoff : option Z) (rssNews : Output) : list Item.t :=
  List.filter (recent cutoff) (items rssNews).

(** [{ ...currentNews, date: item.isoDate }] *)
Definition with_date (currentNews : News.t) (isoDate : string) : Post.t :=
  {| Post.title := News.title currentNews; Post.link := News.link currentNews;
     Post.content := News.content currentNews; Post.date := isoDate |}.

(** The body of the loop over [recentItems], lines 61 to 69. *)
Definition item_body (feedNews : ref) (item : Item.t) : M unit :=
  if JS.truthy_opt (Item.link item) && JS.truthy_opt (Item.isoDate item) then
    let link := default EmptyString (Item.link item) in
    let isoDate := default EmptyString (Item.isoDate item) in
    let! news := fetchNews axios_get JSDOM link in
    for_of news (λ currentNews, push feedNews [with_date currentNews isoDate])
  else ret tt.

(** The body of the loop over [feeds], lines 44 to 75. *)
Definition feed_body (cutoff : option Z) (dateWithNews : ref) (feedName : string)
  : M unit :=
  let feed := RSS_BASE_URL +:+ "/" +:+ feedName in
  let! feedNews := new_array in
  let! rssNews := getRSSFeed parseURL feed in
  for_of (recentItems cutoff rssNews) (item_body feedNews) ;;;
  writeRssFeed Date_parse xml feedName feedNews ;;;
  writeHtmlFeed Date_parse htmlContent feedName feedNews 50 ;;;
  let! l := read_array feedNews in
  push dateWithNews l.

(** [fetchFeeds] over a list of topics; the result is the contents of
    [dateWithNews] when the function returns. *)
Definition fetchFeeds_over (topics : list string) (env : gmap string string) (now : Z)
  : M (list Post.t) :=
  let! dateWithNews := new_array in
  let cutoff := cutoffDate now (MAX_DAYS env) in
  for_of topics (feed_body cutoff dateWithNews) ;;;
  writeRssFeed Date_parse xml "feed" dateWithNews ;;;
  read_array dateWithNews.

Definition fetchFeeds : gmap string string → Z → M (list Post.t) :=
  fetchFeeds_over feeds.

End Aggregator.

(** ** A concrete date parser for the examples *)

(** [new Date(s).getTime()] on the strings that [Date.prototype.toISOString]
    produces, [YYYY-MM-DDTHH:mm:ss.sssZ]; this is the form of the
    [isoDate] that rss-parser gives to an item.  Any other string is
    taken as an invalid date.  The general theorems below hold for every
    parser; this one instantiates them in examples. *)
Module ISO.

Fixpoint number (acc : Z) (s : string) : option Z :=
  match s with
  | EmptyString => Some acc
  | String c s' =>
      match JS.digit c with
      | Some d => number (10 * acc + d) s'
      | None => None
      end
  end.

Definition field (s : string) (pos len : nat) : option Z :=
  let f := String.substring pos len s in
  if (String.length f =? len)%nat then number 0 f else None.

Definition separator (s : string) (pos : nat) (c : ascii) : bool :=
  match String.get pos s with
  | Some c' => Ascii.eqb c c'
  | None => false
  end.

(** Days from 1970-01-01 to the given day of the proleptic Gregorian
    calendar. *)
Definition days_from_civil (y m d : Z) : Z :=
  let y := if m <=? 2 then y - 1 else y in
  let era := y / 400 in
  let yoe := y - era * 400 in
  let doy := (153 * (if 2 <? m then m - 3 else m + 9) + 2) / 5 + d - 1 in
  let doe := yoe * 365 + yoe / 4 - yoe / 100 + doy in
  era * 146097 + doe - 719468.

Definition parse (s : string) : option Z :=
  if (String.length s =? 24)%nat
     && separator s 4 "-" && separator s 7 "-" && separator s 10 "T"
     && separator s 13 ":" && separator s 16 ":" && separator s 19 "."
     && separator s 23 "Z"
  then
    match field s 0 4, field s 5 2, field s 8 2,
          field s 11 2, field s 14 2, field s 17 2, field s 20 3 with
    | Some y, Some mo, Some d, Some h, Some mi, Some sec, Some ms =>
        if (1 <=? mo) && (mo <=? 12) && (1 <=? d) && (d <=? 31)
           && (h <=? 23) && (mi <=? 59) && (sec <=? 59)
        then JS.TimeClip (days_from_civil y mo d * JS.msPerDay
                          + h * 3600000 + mi * 60000 + sec * 1000 + ms)
        else None
    | _, _, _, _, _, _, _ => None
    end
  else None.

End ISO.

(** ** HTML escaping: [escapeHtml] and [escapeHtmlAttr] of [html.ts] *)

(** [text.replace(re, replacer)] for a global regular expression that
    matches single characters: every character that [re] matches is
    replaced by what [replacer] returns for it, the others are kept. *)
Fixpoint replace_each (re : ascii → bool) (replacer : ascii → string) (text : string)
  : string :=
  match text with
  | EmptyString => EmptyString
  | String m text' =>
      (if re m then replacer m else String m EmptyString)
      +:+ replace_each re replacer text'
  end.

(** The double quote character. *)
Definition double_quote : ascii := ascii_of_nat 34.

(** The object [map] of [escapeHtml], as its list of entries. *)
Definition escapeHtml_map : list (ascii * string) :=
  [ ("&"%char, "&amp;"); ("<"%char, "&lt;"); (">"%char, "&gt;");
    (double_quote, "&quot;"); ("'"%char, "&#039;") ].

(** [map[m]]; a key that the object lacks gives [undefined], which
    [replace] would insert as the text [undefined]. *)
Fixpoint map_get (map : list (ascii * string)) (m : ascii) : string :=
  match map with
  | [] => "undefined"
  | (k, v) :: map' => if Ascii.eqb k m then v else map_get map' m
  end.

(** The character class of [escapeHtml]'s regular expression: the five
    characters ampersand, less-than, greater-than, double quote and
    single quote. *)
Definition escapeHtml_class (m : ascii) : bool :=
  Ascii.eqb m "&" || Ascii.eqb m "<" || Ascii.eqb m ">"
  || Ascii.eqb m double_quote || Ascii.eqb m "'".

(** Lines 107 to 118. *)
Definition escapeHtml (text : string) : string :=
  replace_each escapeHtml_class (map_get escapeHtml_map) text.

(** Lines 124 to 131: three [replace] calls, one after the other. *)
Definition escapeHtmlAttr (text : string) : string :=
  replace_each (Ascii.eqb "'") (λ _, "&#039;")
    (replace_each (Ascii.eqb double_quote) (λ _, "&quot;")
       (replace_each (Ascii.eqb "&") (λ _, "&amp;") text)).

(** ** [buildFeed] of [rss.ts], item by item *)

(** One element of [feedItems]: the [title], [pubDate], [guid] (with
    [isPermaLink] true) and [description] (as CDATA) of an [item]. *)
Record FeedItem := {
  item_title : string;
  item_pubDate : string;
  item_guid : string;
  item_description : string
}.

Section BuildFeed.

Variable Date_parse : string → option Z.

(** [Date.prototype.toUTCString] of a time value; of [NaN] it is the text
    [Invalid Date]. *)
Variable toUTCString : option Z → string.

(** The callback of [sortedPosts.map], lines 17 to 34. *)
Definition feed_item (post : Post.t) : FeedItem :=
  {| item_title := Post.title post;
     item_pubDate := toUTCString (Date_parse (Post.date post));
     item_guid := Post.link post;
     item_description := Post.content post |}.

(** Lines 8 to 38: the array is sorted in place, and the items are built
    from it. *)
Definition buildFeed (posts : ref) : M (list FeedItem) :=
  let! sortedPosts := array_sort Date_parse posts in
  ret (List.map feed_item sortedPosts).

End BuildFeed.

(** ** The article block of the HTML page, [html.ts] lines 85 to 93 *)

Section ArticleHtml.

Variable Date_parse : string → option Z.

(** [Date.prototype.toISOString] of a time value that is a date. *)
Variable toISOString : Z → string.

(** The line feed of the template literal. *)
Definition line_feed : string := String (ascii_of_nat 10) EmptyString.

(** The callback of [sortedPosts.map], lines 87 to 91.  [toISOString]
    throws a [RangeError] on an invalid date: [None]. *)
Definition article_html (post : Post.t) : option string :=
  match Date_parse (Post.date post) with
  | None => None
  | Some t =>
      let q := String double_quote EmptyString in
      let iso := toISOString t in
      Some ("        <article>" +:+ line_feed
            +:+ "            <h2><a href=" +:+ q +:+ escapeHtmlAttr (Post.link post)
            +:+ q +:+ ">" +:+ escapeHtml (Post.title post) +:+ "</a></h2>" +:+ line_feed
            +:+ "            <time datetime=" +:+ q +:+ iso +:+ q +:+ ">" +:+ iso
            +:+ "</time>" +:+ line_feed
            +:+ "            <p>" +:+ escapeHtml (Post.content post) +:+ "</p>"
            +:+ line_feed
            +:+ "        </article>")
  end.

(** [sortedPosts.map(...).join("\n")]: what the page holds between
    [<main>] and [</main>]; the first callback that throws ends it. *)
Definition articles_html (sortedPosts : list Post.t) : option string :=
  match mapM article_html sortedPosts with
  | None => None
  | Some blocks => Some (String.concat line_feed blocks)
  end.

End ArticleHtml.

(** * Vocabulary of the properties *)

(** The world after a fetch made [reqs] and slept [delays]. *)
Definition after_fetch (reqs : list Request) (delays : list Z) (w : World) : World :=
  set_timeouts (λ l, l ++ delays) (set_requests (λ l, l ++ reqs) w).

(** The rate-limit signal in the words of the contract: a structured
    response status equal to 429, or an error (an instance of [Error])
    whose message contains [Status code 429]. *)
Definition rate_limit_signal (error : Thrown) : Prop :=
  (∃ r, response error = Some r ∧ status r = Some 429)
  ∨ (instanceofError error = true
     ∧ ∃ a b, message error = a +:+ "Status code 429" +:+ b).

(** A failed attempt is retried when the pass through the loop body ends
    by going round again. *)
Definition retried (parseURL : nat → string → Thrown + Output)
    (feed : string) (attemptCount : Z) (w : World) : Prop :=
  ∃ attemptCount' w',
    iteration parseURL feed attemptCount w = (Ok (Continue attemptCount'), w').

(** An item is within the lookback window when its [isoDate] is a
    non-empty string that parses to a time at or after the cutoff. *)
Definition within_lookback (Date_parse : string → option Z) (cutoff : option Z)
    (item : Item.t) : Prop :=
  ∃ s t c, Item.isoDate item = Some s ∧ s ≠ EmptyString
           ∧ Date_parse s = Some t ∧ cutoff = Some c ∧ c <= t.

(** The articles pushed while the loop goes over [headers]. *)
Definition articles_of (headers : list DOM.Located) : list News.t :=
  fold_left scrape_header headers [].

(** [header] yields the article [a]: the title is the heading's text, the
    link is the [href] of the heading's parent, the content is the text
    of the first [div] under the heading's grandparent, and none of the
    three is empty. *)
Definition extracts (header : DOM.Located) (a : News.t) : Prop :=
  News.title a = DOM.textContent header.1
  ∧ (∃ parent, DOM.parentElement header = Some parent
               ∧ DOM.getAttribute "href" parent = Some (News.link a))
  ∧ (∃ parent grandparent div,
        DOM.parentElement header = Some parent
        ∧ DOM.parentElement parent = Some grandparent
        ∧ DOM.querySelector "div" grandparent = Some div
        ∧ News.content a = DOM.textContent div.1)
  ∧ News.title a ≠ EmptyString ∧ News.link a ≠ EmptyString
  ∧ News.content a ≠ EmptyString.

(** The article pushed for a candidate that is not skipped. *)
Definition article (c : Candidate) : News.t :=
  {| News.title := cand_title c;
     News.link := default EmptyString (cand_link c);
     News.content := default EmptyString (cand_content c) |}.

(** The error of both writers on an empty list. *)
Definition no_posts (feedName : string) : Thrown :=
  Error ("No posts found for " +:+ feedName).

(** The world once a writer has been called with [l]. *)
Definition entered (wr : Writer) (name : string) (l : list Post.t) (w : World) : World :=
  set_handed (λ h, h ++ [ {| writer := wr; feedName := name; posts := l |} ]) w.

(** The array [f] has grown by [l], [reqs] have been made, and nothing
    else that the aggregator looks at has changed. *)
Definition extends (f : ref) (l : list Post.t) (reqs : list Request) (w w' : World)
  : Prop :=
  default [] (arrays w' !! f) = default [] (arrays w !! f) ++ l
  ∧ (∀ r, r ≠ f → arrays w' !! r = arrays w !! r)
  ∧ handed w' = handed w
  ∧ next_ref w' = next_ref w
  ∧ requests w' = requests w ++ reqs.

(** [item.link && item.isoDate] *)
Definition has_link_and_date (item : Item.t) : bool :=
  JS.truthy_opt (Item.link item) && JS.truthy_opt (Item.isoDate item).

Definition item_requests (item : Item.t) : list Request :=
  if has_link_and_date item
  then [AxiosGet (default EmptyString (Item.link item))]
  else [].

Section Vocabulary.

Variable parseURL : nat → string → Thrown + Output.
Variable axios_get : nat → string → Thrown + string.
Variable JSDOM : string → Thrown + Node.
Variable Date_parse : string → option Z.

(** [errs] are the rejections of the next attempts, in order. *)
Definition fail_with (feed : string) (errs : list Thrown) (w : World) : Prop :=
  ∀ (k : nat) error, errs !! k = Some error →
    parseURL (List.length (requests w) + k)%nat feed = inl error.

(** The date of [post] parses. *)
Definition valid_date (post : Post.t) : Prop := is_Some (Date_parse (Post.date post)).

(** [a] is at least as recent as [b]. *)
Definition not_older (a b : Post.t) : Prop :=
  ∃ ta tb, Date_parse (Post.date a) = Some ta ∧ Date_parse (Post.date b) = Some tb
           ∧ tb <= ta.

(** What [fetchNews] resolves to when its request is the [k]-th of the
    run. *)
Definition fetched (k : nat) (url : string) : list News.t :=
  match axios_get k url with
  | inl _ => []
  | inr data =>
      match JSDOM data with
      | inl _ => []
      | inr doc => scrape doc
      end
  end.

(** The posts that one item adds when the next request is the [k]-th, and
    the request it makes. *)
Definition item_posts (k : nat) (item : Item.t) : list Post.t :=
  if has_link_and_date item
  then List.map (λ currentNews,
                   with_date currentNews (default EmptyString (Item.isoDate item)))
                (fetched k (default EmptyString (Item.link item)))
  else [].

(** The posts that a list of items adds, in the order they are appended:
    item after item, and for one item article after article. *)
Fixpoint collected (k : nat) (items : list Item.t) : list Post.t :=
  match items with
  | [] => []
  | item :: rest =>
      item_posts k item ++ collected (k + List.length (item_requests item)) rest
  end.

(** What one topic leaves behind when its pass through the loop
    completes: [A] is the topic's list as it was appended. *)
Definition topic_done (cutoff : option Z) (d : ref) (name : string)
    (A : list Post.t) (w w' : World) : Prop :=
  A ≠ []
  ∧ (∃ k out, A = collected k (recentItems Date_parse cutoff out))
  ∧ handed w' = handed w ++ [ {| writer := Rss; feedName := name; posts := A |};
                              {| writer := Html; feedName := name;
                                 posts := sort Date_parse A |} ]
  ∧ default [] (arrays w' !! d) = default [] (arrays w !! d) ++ sort Date_parse A
  ∧ next_ref w' = S (next_ref w).

(** The writer calls of the topics [topics] whose appended lists are
    [As]: for each topic the RSS writer, handed the list as appended, then
    the HTML writer, handed the list as the RSS writer left it. *)
Fixpoint topic_calls (topics : list string) (As : list (list Post.t)) : list Handed :=
  match topics, As with
  | name :: topics', A :: As' =>
      {| writer := Rss; feedName := name; posts := A |}
      :: {| writer := Html; feedName := name; posts := sort Date_parse A |}
      :: topic_calls topics' As'
  | _, _ => []
  end.

(** [A] is what some feed's recent items collect. *)
Definition collected_from_feed (cutoff : option Z) (A : list Post.t) : Prop :=
  ∃ k out, A = collected k (recentItems Date_parse cutoff out).

End Vocabulary.

(** The character [c] occurs in [s]. *)
Fixpoint occurs (c : ascii) (s : string) : bool :=
  match s with
  | EmptyString => false
  | String a s' => Ascii.eqb a c || occurs c s'
  end.

(** What [escapeHtml] puts in the place of the character [m]. *)
Definition escaped_char (m : ascii) : string :=
  if escapeHtml_class m then map_get escapeHtml_map m else String m EmptyString.

(** What [escapeHtmlAttr] puts in the place of the character [m]. *)
Definition escaped_attr_char (m : ascii) : string :=
  if Ascii.eqb m "&" then "&amp;"
  else if Ascii.eqb m double_quote then "&quot;"
  else if Ascii.eqb m "'" then "&#039;"
  else String m EmptyString.

(** The files of the two writers: [`./static/${feedName}.rss`] and
    [`./static/${feedName}.html`]. *)
Definition rss_path (feedName : string) : string := "./static/" +:+ feedName +:+ ".rss".
Definition html_path (feedName : string) : string := "./static/" +:+ feedName +:+ ".html".

(** The contents of the array at [r]. *)
Definition array_at (r : ref) (w : World) : list Post.t := default [] (arrays w !! r).

(** [`${RSS_BASE_URL}/${feedName}`] *)
Definition topic_url (feedName : string) : string := RSS_BASE_URL +:+ "/" +:+ feedName.

(** The world once [new_array] has run. *)
Definition allocated (w : World) : World :=
  set_next_ref S (set_arrays (insert (next_ref w) []) w).

(** The date of [post] parses to a time at or after the cutoff. *)
Definition post_within_lookback (Date_parse : string → option Z) (cutoff : option Z)
    (post : Post.t) : Prop :=
  ∃ t c, Date_parse (Post.date post) = Some t ∧ cutoff = Some c ∧ c <= t.

(** How many times the character [c] occurs in [s]. *)
Fixpoint count_char (c : ascii) (s : string) : nat :=
  match s with
  | EmptyString => 0%nat
  | String a s' => ((if Ascii.eqb a c then 1 else 0) + count_char c s')%nat
  end.

(** * Concrete inputs *)

(** The rejection used by the tests of [getRSSFeed]: status 429 with a
    [retry-after] of one second. *)
Definition error429 : Thrown :=
  {| response := Some {| status := Some 429;
                         headers := Some {[ "retry-after" := "1" ]} |};
     instanceofError := true;
     message := "Too Many Requests" |}.

(** A rate-limit rejection whose [retry-after] holds no integer. *)
Definition error429_bad_header : Thrown :=
  {| response := Some {| status := Some 429;
                         headers := Some {[ "retry-after" := "soon" ]} |};
     instanceofError := true;
     message := "Too Many Requests" |}.

(** How rss-parser itself rejects: [new Error("Status code 429")]. *)
Definition error429_message_only : Thrown := Error "Status code 429".

Definition error404 : Thrown :=
  {| response := Some {| status := Some 404; headers := None |};
     instanceofError := true;
     message := "Not Found" |}.

Definition example_feed : string := "https://example.com/rss".

Definition example_output : Output :=
  {| items := [ {| Item.link := Some "https://example.com/1";
                   Item.isoDate := Some "2024-01-18T12:00:00.000Z" |} ] |}.

(** [mockRejectedValueOnce] six times, then [mockResolvedValueOnce]. *)
Definition six_failures_then_success (k : nat) (_ : string) : Thrown + Output :=
  if (k <? 6)%nat then inl error429 else inr example_output.

(** [mockRejectedValue(error)]. *)
Definition always_rejects (error : Thrown) (_ : nat) (_ : string) : Thrown + Output :=
  inl error.

(** The world of a fetch of [example_feed] that has failed six times with
    [error429_message_only], waiting 30 seconds each time. *)
Definition after_six_failures : World :=
  after_fetch (replicate 6 (ParseURL example_feed)) (replicate 6 30000) empty_world.

(** The items of the date-filter test: aged 2, 10 and 5 days at
    2024-01-20T12:00:00.000Z, one without a date and one whose date does
    not parse. *)
Definition test_now : Z := 1705752000000.

Definition item_2_days : Item.t :=
  {| Item.link := Some "https://example.com/1";
     Item.isoDate := Some "2024-01-18T12:00:00.000Z" |}.

Definition item_10_days : Item.t :=
  {| Item.link := Some "https://example.com/2";
     Item.isoDate := Some "2024-01-10T12:00:00.000Z" |}.

Definition item_5_days : Item.t :=
  {| Item.link := Some "https://example.com/3";
     Item.isoDate := Some "2024-01-15T12:00:00.000Z" |}.

Definition item_undated : Item.t :=
  {| Item.link := Some "https://example.com/4"; Item.isoDate := None |}.

Definition item_unparseable : Item.t :=
  {| Item.link := Some "https://example.com/5"; Item.isoDate := Some "yesterday" |}.

Definition item_without_link : Item.t :=
  {| Item.link := None; Item.isoDate := Some "2024-01-19T12:00:00.000Z" |}.

Definition item_ai : Item.t :=
  {| Item.link := Some "https://example.com/9";
     Item.isoDate := Some "2024-01-19T12:00:00.000Z" |}.

(** A listing page with three headings; the second has no [href] on its
    parent. *)
Definition listing_entry (href : list (string * string)) (title body : string) : Node :=
  Element "section" []
    [ Element "a" href [ Element "h3" [] [ Text title ] ];
      Element "div" [] [ Text body ] ].

Definition listing : Node :=
  Element "html" []
    [ Element "head" [] [ Element "title" [] [ Text "TLDR" ] ];
      Element "body" []
        [ listing_entry [("href", "https://example.com/a1")] "First" "Body one";
          listing_entry [] "Sponsor" "Body two";
          listing_entry [("href", "https://example.com/a3")] "Third" "Body three" ] ].

(** Every page holds one article, which links to the page itself. *)
Definition one_article_page (url : string) : Node :=
  Element "html" []
    [ Element "body" [] [ listing_entry [("href", url)] "Headline" "Summary" ] ].

Definition post_of (url isoDate : string) : Post.t :=
  {| Post.title := "Headline"; Post.link := url; Post.content := "Summary";
     Post.date := isoDate |}.

(** The feed of [tech] lists its older item first. *)
Definition two_topics_parseURL (_ : nat) (feed : string) : Thrown + Output :=
  if String.eqb feed "https://tldr.tech/api/rss/tech"
  then inr {| items := [item_5_days; item_2_days] |}
  else inr {| items := [item_ai] |}.

Definition two_topics_run : Outcome (list Post.t) * World :=
  fetchFeeds_over two_topics_parseURL (λ _ url, inr url) (λ data, inr (one_article_page data))
    ISO.parse (λ _ _, "<rss/>") (λ _ _, "<html/>") ["tech"; "ai"] ∅ test_now empty_world.

Definition post_tech_older : Post.t :=
  post_of "https://example.com/3" "2024-01-15T12:00:00.000Z".

Definition post_tech_newer : Post.t :=
  post_of "https://example.com/1" "2024-01-18T12:00:00.000Z".

Definition post_ai : Post.t :=
  post_of "https://example.com/9" "2024-01-19T12:00:00.000Z".



(** A dated post whose title and link carry markup. *)
Definition marked_up_post : Post.t :=
  {| Post.title := "<b>A & B</b>"; Post.link := "https://example.com/?a=<1>";
     Post.content := "says 'hi'"; Post.date := "2024-01-15T12:00:00.000Z" |}.

(** * Properties *)

(** ** Strings *)

Lemma app_String (c : ascii) (s t : string) : String c s +:+ t = String c (s +:+ t).
Proof. reflexivity. Qed.

Lemma startsWith_spec (s p : string) :
  JS.startsWith s p = true ↔ ∃ t, s = p +:+ t.
Proof.
  revert s. induction p as [|a p IH]; intros [|b s]; simpl.
  - split; [intros _; by exists EmptyString | done].
  - split; [intros _; by exists (String b s) | done].
  - split; [done | intros [t Ht]; discriminate].
  - destruct (Ascii.eqb_spec a b) as [->|Hne].
    + rewrite IH. split; intros [t Ht]; exists t;
        rewrite app_String in *; congruence.
    + split; [done | intros [t Ht]; rewrite app_String in Ht; congruence].
Qed.

(** [includes] finds the pattern exactly when the string splits around it. *)
Lemma includes_spec (s p : string) :
  JS.includes s p = true ↔ ∃ a b, s = a +:+ p +:+ b.
Proof.
  induction s as [|c s IH]; cbn [JS.includes].
  - rewrite orb_false_r, startsWith_spec. split.
    + intros [t Ht]. by exists EmptyString, t.
    + intros [a [b Hab]]. destruct a; [by exists b | discriminate].
  - rewrite orb_true_iff, startsWith_spec, IH. split.
    + intros [[t Ht] | [a [b Hab]]].
      * by exists EmptyString, t.
      * exists (String c a), b. by rewrite app_String, Hab.
    + intros [a [b Hab]]. destruct a as [|c' a].
      * left. by exists b.
      * right. exists a, b. rewrite app_String in Hab. congruence.
Qed.

(** ** Worlds *)

Lemma after_fetch_after_fetch r1 d1 r2 d2 w :
  after_fetch r2 d2 (after_fetch r1 d1 w) = after_fetch (r1 ++ r2) (d1 ++ d2) w.
Proof.
  unfold after_fetch, set_timeouts, set_requests. simpl.
  by rewrite <- !app_assoc.
Qed.

Lemma after_fetch_requests r d w : requests (after_fetch r d w) = requests w ++ r.
Proof. done. Qed.

(** ** The retry loop *)

Section FetcherFacts.

Variable parseURL : nat → string → Thrown + Output.
Variable feed : string.

Lemma iteration_success attemptCount w out :
  parseURL (List.length (requests w)) feed = inr out →
  iteration parseURL feed attemptCount w
  = (Ok (Return out), after_fetch [ParseURL feed] [] w).
Proof.
  intros H. unfold iteration, try_catch, bind, parser_parseURL. rewrite H. simpl.
  unfold ret, after_fetch, set_timeouts. simpl. by rewrite app_nil_r.
Qed.

Lemma iteration_retry attemptCount w error :
  parseURL (List.length (requests w)) feed = inl error →
  is429Error error = true →
  attemptCount + 1 <= maxRetries →
  iteration parseURL feed attemptCount w
  = (Ok (Continue (attemptCount + 1)),
     after_fetch [ParseURL feed] [delayMs error] w).
Proof.
  intros H H429 Hle. unfold iteration, try_catch, bind, parser_parseURL.
  rewrite H, H429. simpl.
  destruct (Z.gtb_spec (attemptCount + 1) maxRetries); [lia | done].
Qed.

Lemma iteration_throw attemptCount w error :
  parseURL (List.length (requests w)) feed = inl error →
  is429Error error = false ∨ maxRetries < attemptCount + 1 →
  iteration parseURL feed attemptCount w
  = (Throw error, after_fetch [ParseURL feed] [] w).
Proof.
  intros H Hor. unfold iteration, try_catch, bind, parser_parseURL.
  rewrite H.
  assert (negb (is429Error error) || (attemptCount + 1 >? maxRetries) = true) as ->.
  { destruct Hor as [-> | Hlt]; [done |].
    apply orb_true_iff. right. by apply Z.gtb_lt. }
  unfold throw, after_fetch, set_timeouts. simpl. by rewrite app_nil_r.
Qed.

Lemma fail_with_head error errs w :
  fail_with parseURL feed (error :: errs) w →
  parseURL (List.length (requests w)) feed = inl error.
Proof. intros H. specialize (H 0%nat error eq_refl). by rewrite Nat.add_0_r in H. Qed.

Lemma fail_with_tail error errs d w :
  fail_with parseURL feed (error :: errs) w →
  fail_with parseURL feed errs (after_fetch [ParseURL feed] d w).
Proof.
  intros H k e Hk. rewrite after_fetch_requests, length_app. simpl.
  replace (List.length (requests w) + 1 + k)%nat
    with (List.length (requests w) + S k)%nat by lia.
  by apply H.
Qed.

(** The loop goes through a run of retried rate-limit failures: it makes
    one request and one wait for each, and carries on after them. *)
Lemma while_loop_retries errs fuel attemptCount w :
  attemptCount + Z.of_nat (List.length errs) <= maxRetries →
  Forall (λ error, is429Error error = true) errs →
  fail_with parseURL feed errs w →
  while_loop parseURL (List.length errs + fuel) feed attemptCount w
  = while_loop parseURL fuel feed (attemptCount + Z.of_nat (List.length errs))
      (after_fetch (replicate (List.length errs) (ParseURL feed))
                   (List.map delayMs errs) w).
Proof.
  revert attemptCount w.
  induction errs as [|error errs IH]; intros attemptCount w Hle H429 Hfail.
  - simpl. rewrite Z.add_0_r. f_equal.
    unfold after_fetch, set_timeouts, set_requests. destruct w; simpl.
    by rewrite !app_nil_r.
  - simpl List.length in *. rewrite Nat.add_succ_l. cbn [while_loop].
    destruct (Z.leb_spec attemptCount maxRetries) as [_|?]; [|lia].
    inversion H429 as [|? ? He Herrs]; subst.
    unfold bind at 1.
    rewrite (iteration_retry _ _ error) by (eauto using fail_with_head || lia).
    rewrite IH; [| lia | done | by eapply fail_with_tail].
    rewrite after_fetch_after_fetch. simpl.
    by replace (attemptCount + 1 + Z.of_nat (List.length errs))
      with (attemptCount + Z.of_nat (S (List.length errs))) by lia.
Qed.

Lemma while_loop_return fuel attemptCount w out :
  attemptCount <= maxRetries →
  parseURL (List.length (requests w)) feed = inr out →
  while_loop parseURL (S fuel) feed attemptCount w
  = (Ok out, after_fetch [ParseURL feed] [] w).
Proof.
  intros Hle H. cbn [while_loop].
  destruct (Z.leb_spec attemptCount maxRetries) as [_|?]; [|lia].
  unfold bind. by rewrite (iteration_success _ _ out).
Qed.

Lemma while_loop_throw fuel attemptCount w error :
  attemptCount <= maxRetries →
  parseURL (List.length (requests w)) feed = inl error →
  is429Error error = false ∨ maxRetries < attemptCount + 1 →
  while_loop parseURL (S fuel) feed attemptCount w
  = (Throw error, after_fetch [ParseURL feed] [] w).
Proof.
  intros Hle H Hor. cbn [while_loop].
  destruct (Z.leb_spec attemptCount maxRetries) as [_|?]; [|lia].
  unfold bind. by rewrite (iteration_throw _ _ error).
Qed.

Lemma replicate_snoc {A} (n : nat) (x : A) : replicate n x ++ [x] = replicate (S n) x.
Proof. induction n as [|n IH]; simpl; [done | by rewrite IH]. Qed.

(** After at most six retried failures, a success is returned. *)
Lemma getRSSFeed_returns errs out w :
  (List.length errs <= 6)%nat →
  Forall (λ error, is429Error error = true) errs →
  fail_with parseURL feed errs w →
  parseURL (List.length (requests w) + List.length errs)%nat feed = inr out →
  getRSSFeed parseURL feed w
  = (Ok out, after_fetch (replicate (S (List.length errs)) (ParseURL feed))
                         (List.map delayMs errs) w).
Proof.
  intros Hlen H429 Hfail Hout. unfold getRSSFeed.
  replace 7%nat with (List.length errs + S (6 - List.length errs))%nat by lia.
  rewrite while_loop_retries by (done || (unfold maxRetries; lia)).
  rewrite (while_loop_return _ _ _ out).
  - rewrite after_fetch_after_fetch, app_nil_r. by rewrite replicate_snoc.
  - unfold maxRetries; lia.
  - by rewrite after_fetch_requests, length_app, length_replicate.
Qed.

(** After at most six retried failures, a failure that is not a
    rate-limit signal, or that is the seventh, is thrown as it is. *)
Lemma getRSSFeed_throws errs error w :
  (List.length errs <= 6)%nat →
  Forall (λ error, is429Error error = true) errs →
  fail_with parseURL feed errs w →
  parseURL (List.length (requests w) + List.length errs)%nat feed = inl error →
  is429Error error = false ∨ List.length errs = 6%nat →
  getRSSFeed parseURL feed w
  = (Throw error, after_fetch (replicate (S (List.length errs)) (ParseURL feed))
                              (List.map delayMs errs) w).
Proof.
  intros Hlen H429 Hfail Herr Hor. unfold getRSSFeed.
  replace 7%nat with (List.length errs + S (6 - List.length errs))%nat by lia.
  rewrite while_loop_retries by (done || (unfold maxRetries; lia)).
  rewrite (while_loop_throw _ _ _ error).
  - rewrite after_fetch_after_fetch, app_nil_r. by rewrite replicate_snoc.
  - unfold maxRetries; lia.
  - by rewrite after_fetch_requests, length_app, length_replicate.
  - destruct Hor as [?|Hsix]; [by left | right; unfold maxRetries; lia].
Qed.

(** The fuel given to the loop is enough: it never runs out. *)
Lemma while_loop_fuel fuel attemptCount w :
  (Z.to_nat (maxRetries + 1 - attemptCount) <= fuel)%nat →
  (while_loop parseURL fuel feed attemptCount w).1 ≠ OutOfFuel.
Proof.
  revert attemptCount w. induction fuel as [|fuel IH]; intros attemptCount w Hfuel;
    cbn [while_loop];
    destruct (Z.leb_spec attemptCount maxRetries) as [Hle|Hgt]; try done.
  - lia.
  - unfold bind.
    destruct (parseURL (List.length (requests w)) feed) as [error|out] eqn:E.
    + destruct (is429Error error) eqn:E429.
      * destruct (Z.le_gt_cases (attemptCount + 1) maxRetries).
        -- rewrite (iteration_retry _ _ error) by done. apply IH. lia.
        -- by rewrite (iteration_throw _ _ error) by (done || (right; lia)).
      * by rewrite (iteration_throw _ _ error) by (done || by left).
    + by rewrite (iteration_success _ _ out).
Qed.

Lemma getRSSFeed_total w : (getRSSFeed parseURL feed w).1 ≠ OutOfFuel.
Proof. apply while_loop_fuel. done. Qed.

End FetcherFacts.

(** ** Rate-limit detection and the wait before a retry *)

Lemma is429Error_spec (error : Thrown) :
  is429Error error = true ↔ rate_limit_signal error.
Proof.
  unfold is429Error, rate_limit_signal.
  rewrite orb_true_iff, andb_true_iff, includes_spec. apply or_iff_compat_r.
  destruct (response error) as [r|]; [destruct (status r) as [n|] eqn:E |].
  - rewrite Z.eqb_eq. split.
    + intros ->. by exists r.
    + intros [r' [[= <-] Hr]]. congruence.
  - split; [done | intros [r' [[= <-] Hr]]; congruence].
  - split; [done | intros [r' [? _]]; done].
Qed.

(** How [parseInt] reads a header: leading white space and a sign are
    accepted, the digits that follow are the value, and what comes after
    them is ignored. *)
Example parseInt_examples :
  JS.parseInt "1" = Some 1 ∧ JS.parseInt " 120" = Some 120
  ∧ JS.parseInt "12abc" = Some 12 ∧ JS.parseInt "-5" = Some (-5)
  ∧ JS.parseInt "soon" = None ∧ JS.parseInt EmptyString = None.
Proof. by repeat split. Qed.

(** The wait in seconds: the header's integer when there is one, 30
    without a header or without an integer in it. *)
Lemma delaySeconds_spec (error : Thrown) :
  delaySeconds error =
  match retryAfter error with
  | Some s => match JS.parseInt s with Some n => n | None => 30 end
  | None => 30
  end.
Proof.
  unfold delaySeconds. destruct (retryAfter error) as [s|]; [|done].
  destruct s as [|c s]; [done|]. simpl JS.truthy.
  by destruct (JS.parseInt (String c s)).
Qed.

(** C1: when the first n attempts fail with a rate-limit error, n <= 6,
    and the next attempt succeeds, [getRSSFeed] returns that success after
    exactly n+1 requests; when seven attempts in a row fail with a
    rate-limit error, it throws the seventh error after exactly seven
    requests. *)
Theorem getRSSFeed_attempt_budget
    (parseURL : nat → string → Thrown + Output) (feed : string)
    (errs : list Thrown) (w : World) :
  Forall rate_limit_signal errs →
  fail_with parseURL feed errs w →
  (∀ out, (List.length errs <= 6)%nat →
     parseURL (List.length (requests w) + List.length errs)%nat feed = inr out →
     ∃ w', getRSSFeed parseURL feed w = (Ok out, w')
           ∧ requests w' = requests w ++ replicate (List.length errs + 1) (ParseURL feed))
  ∧ (List.length errs = 7%nat →
     ∃ last w', errs !! 6%nat = Some last
           ∧ getRSSFeed parseURL feed w = (Throw last, w')
           ∧ requests w' = requests w ++ replicate 7 (ParseURL feed)).
Proof.
  intros Hsig Hfail.
  assert (Forall (λ error, is429Error error = true) errs) as H429.
  { eapply Forall_impl; [exact Hsig|]. intros e He. by apply is429Error_spec. }
  split.
  - intros out Hlen Hout. eexists. split.
    + by apply getRSSFeed_returns.
    + rewrite after_fetch_requests. by rewrite Nat.add_1_r.
  - intros Hlen.
    destruct (lookup_lt_is_Some_2 errs 6%nat) as [last Hlast]; [lia|].
    exists last. eexists. split; [done|].
    rewrite <- (take_drop 6 errs) in Hfail, Hlast.
    assert (List.length (take 6 errs) = 6%nat) as Htake by (rewrite length_take; lia).
    rewrite (getRSSFeed_throws parseURL feed (take 6 errs) last).
    + by rewrite after_fetch_requests, Htake.
    + lia.
    + by apply Forall_take.
    + intros k e Hk. apply Hfail. rewrite lookup_app_l; [done|].
      by eapply lookup_lt_Some.
    + rewrite Htake. by apply Hfail.
    + by right.
Qed.

(** *** Concrete runs of the fetcher *)

Lemma rate_limit_signal_error429 : rate_limit_signal error429.
Proof. left. eexists. split; reflexivity. Defined.

Lemma rate_limit_signal_message_only : rate_limit_signal error429_message_only.
Proof. right. split; [reflexivity|]. by exists EmptyString, EmptyString. Defined.

Lemma fail_with_always_rejects error feed n w :
  fail_with (always_rejects error) feed (replicate n error) w.
Proof. intros k e Hk. apply lookup_replicate in Hk as [-> _]. reflexivity. Defined.

Lemma getRSSFeed_attempt_budget_witness :
  (∃ w', getRSSFeed six_failures_then_success example_feed empty_world
         = (Ok example_output, w')
         ∧ requests w' = replicate 7 (ParseURL example_feed))
  ∧ (∃ w', getRSSFeed (always_rejects error429) example_feed empty_world
         = (Throw error429, w')
         ∧ requests w' = replicate 7 (ParseURL example_feed)).
Proof.
  split.
  - destruct (getRSSFeed_attempt_budget six_failures_then_success example_feed
                (replicate 6 error429) empty_world) as [H _].
    + apply Forall_replicate, rate_limit_signal_error429.
    + intros k e Hk. apply lookup_replicate in Hk as [-> Hk].
      do 6 (destruct k as [|k]; [reflexivity|]). simpl in Hk. lia.
    + apply (H example_output); [simpl; lia | reflexivity].
  - destruct (getRSSFeed_attempt_budget (always_rejects error429) example_feed
                (replicate 7 error429) empty_world) as [_ H].
    + apply Forall_replicate, rate_limit_signal_error429.
    + apply fail_with_always_rejects.
    + destruct (H eq_refl) as [last [w' [Hlast [Hrun Hreq]]]].
      injection Hlast as <-. by exists w'.
Defined.

(** The run of the test that rejects with the message alone: seven
    requests, six waits of 30 seconds, and the error thrown; before the
    seventh request the world is [after_six_failures]. *)
Example getRSSFeed_message_only_exhausts :
  getRSSFeed (always_rejects error429_message_only) example_feed empty_world
  = (Throw error429_message_only,
     after_fetch [ParseURL example_feed] [] after_six_failures).
Proof. reflexivity. Qed.

(** C2, as stated, fails: the seventh failure in a row is a rate-limit
    signal and is not retried. *)
Lemma seventh_rate_limit_failure_not_retried :
  ¬ (∀ (parseURL : nat → string → Thrown + Output) feed attemptCount w error,
       0 <= attemptCount <= maxRetries →
       parseURL (List.length (requests w)) feed = inl error →
       (retried parseURL feed attemptCount w ↔ rate_limit_signal error)).
Proof.
  intros claim.
  destruct (claim (always_rejects error429_message_only) example_feed 6
              after_six_failures error429_message_only) as [_ H].
  - unfold maxRetries. lia.
  - reflexivity.
  - destruct (H rate_limit_signal_message_only) as [n [w' Hrun]].
    vm_compute in Hrun. discriminate.
Qed.

(** C2, amended: a failed attempt is retried exactly when its error is a
    rate-limit signal and it is not the seventh attempt; a failure that
    is not a rate-limit signal is thrown at once, and on the first
    attempt that leaves exactly one request made. *)
Theorem retried_iff_rate_limit_within_budget
    (parseURL : nat → string → Thrown + Output) (feed : string)
    (attemptCount : Z) (w : World) (error : Thrown) :
  parseURL (List.length (requests w)) feed = inl error →
  (retried parseURL feed attemptCount w
     ↔ rate_limit_signal error ∧ attemptCount + 1 <= maxRetries)
  ∧ (¬ rate_limit_signal error →
       iteration parseURL feed attemptCount w
       = (Throw error, after_fetch [ParseURL feed] [] w))
  ∧ (¬ rate_limit_signal error →
       ∃ w', getRSSFeed parseURL feed w = (Throw error, w')
             ∧ requests w' = requests w ++ [ParseURL feed]
             ∧ timeouts w' = timeouts w).
Proof.
  intros Herr. rewrite <- is429Error_spec.
  split; [split | split].
  - intros [n [w' Hrun]]. destruct (is429Error error) eqn:E429.
    + split; [done|].
      destruct (Z.le_gt_cases (attemptCount + 1) maxRetries) as [?|Hgt]; [done|].
      rewrite (iteration_throw _ _ _ _ error) in Hrun by (done || (right; lia)).
      discriminate.
    + rewrite (iteration_throw _ _ _ _ error) in Hrun by (done || by left).
      discriminate.
  - intros [H429 Hle]. do 2 eexists. by apply iteration_retry.
  - intros Hnot. apply iteration_throw; [done|]. left.
    by destruct (is429Error error).
  - intros Hnot. eexists. split.
    + apply (getRSSFeed_throws parseURL feed [] error); simpl; try done; try lia.
      * by rewrite Nat.add_0_r.
      * left. by destruct (is429Error error).
    + split; [done|]. simpl. by rewrite app_nil_r.
Qed.

Lemma retried_iff_rate_limit_within_budget_witness :
  ¬ rate_limit_signal error404
  ∧ ∃ w', getRSSFeed (always_rejects error404) example_feed empty_world
          = (Throw error404, w')
          ∧ requests w' = [ParseURL example_feed]
          ∧ timeouts w' = [].
Proof.
  assert (¬ rate_limit_signal error404) as Hnot.
  { rewrite <- is429Error_spec. vm_compute. discriminate. }
  split; [exact Hnot|].
  destruct (retried_iff_rate_limit_within_budget (always_rejects error404)
              example_feed 0 empty_world error404 eq_refl) as [_ [_ H]].
  exact (H Hnot).
Defined.

(** C3: whenever a rate-limit failure is retried, the wait before the
    next attempt is the integer that [parseInt] reads from the
    [retry-after] header, in seconds, when the header is present and
    holds one, and 30 seconds when the header is absent or holds none. *)
Theorem retry_wait_is_header_or_default
    (parseURL : nat → string → Thrown + Output) (feed : string)
    (attemptCount attemptCount' : Z) (w w' : World) (error : Thrown) :
  parseURL (List.length (requests w)) feed = inl error →
  iteration parseURL feed attemptCount w = (Ok (Continue attemptCount'), w') →
  ∃ seconds,
    timeouts w' = timeouts w ++ [seconds * 1000]
    ∧ match retryAfter error with
      | Some header =>
          match JS.parseInt header with
          | Some n => seconds = n
          | None => seconds = 30
          end
      | None => seconds = 30
      end.
Proof.
  intros Herr Hrun. exists (delaySeconds error). split.
  - destruct (is429Error error) eqn:E429.
    + destruct (Z.le_gt_cases (attemptCount + 1) maxRetries) as [?|Hgt].
      * rewrite (iteration_retry _ _ _ _ error) in Hrun by done.
        injection Hrun as _ <-. done.
      * rewrite (iteration_throw _ _ _ _ error) in Hrun by (done || (right; lia)).
        discriminate.
    + rewrite (iteration_throw _ _ _ _ error) in Hrun by (done || by left).
      discriminate.
  - rewrite delaySeconds_spec.
    destruct (retryAfter error) as [s|]; [|done]. by destruct (JS.parseInt s).
Qed.

Lemma retry_wait_is_header_or_default_witness :
  (∃ seconds,
     timeouts (iteration (always_rejects error429) example_feed 0 empty_world).2
     = [seconds * 1000] ∧ seconds = 1)
  ∧ (∃ seconds,
       timeouts (iteration (always_rejects error429_message_only) example_feed 0
                   empty_world).2
       = [seconds * 1000] ∧ seconds = 30)
  ∧ (∃ seconds,
       timeouts (iteration (always_rejects error429_bad_header) example_feed 0
                   empty_world).2
       = [seconds * 1000] ∧ seconds = 30).
Proof.
  split; [| split].
  - exact (retry_wait_is_header_or_default (always_rejects error429) example_feed
             0 1 empty_world
             (iteration (always_rejects error429) example_feed 0 empty_world).2
             error429 eq_refl eq_refl).
  - exact (retry_wait_is_header_or_default (always_rejects error429_message_only)
             example_feed 0 1 empty_world
             (iteration (always_rejects error429_message_only) example_feed 0
                empty_world).2
             error429_message_only eq_refl eq_refl).
  - exact (retry_wait_is_header_or_default (always_rejects error429_bad_header)
             example_feed 0 1 empty_world
             (iteration (always_rejects error429_bad_header) example_feed 0
                empty_world).2
             error429_bad_header eq_refl eq_refl).
Defined.

(** ** The lookback window *)

(** C4, as stated, fails: a value without a leading integer is not
    replaced by the default, [parseInt] yields [NaN]. *)
Lemma MAX_DAYS_non_numeric_is_not_10 :
  MAX_DAYS {[ "MAX_DAYS" := "abc" ]} = None
  ∧ MAX_DAYS {[ "MAX_DAYS" := "abc" ]} ≠ Some 10.
Proof. by vm_compute. Qed.

(** C4, amended: the lookback window is what [parseInt] reads from the
    variable; it is the default 10 when the variable is unset or empty,
    and the integer read when the value starts with one. *)
Theorem MAX_DAYS_default_when_unset_or_empty (env : gmap string string) :
  (env !! "MAX_DAYS" = None ∨ env !! "MAX_DAYS" = Some EmptyString →
   MAX_DAYS env = Some 10)
  ∧ (∀ value n,
       env !! "MAX_DAYS" = Some value → JS.parseInt value = Some n →
       MAX_DAYS env = Some n).
Proof.
  split.
  - intros Hunset. unfold MAX_DAYS. by destruct Hunset as [-> | ->].
  - intros value n Hset Hn. unfold MAX_DAYS. rewrite Hset.
    destruct value as [|c value]; [discriminate|]. done.
Qed.

Lemma MAX_DAYS_default_when_unset_or_empty_witness :
  MAX_DAYS ∅ = Some 10
  ∧ MAX_DAYS {[ "MAX_DAYS" := EmptyString ]} = Some 10
  ∧ MAX_DAYS {[ "MAX_DAYS" := "7" ]} = Some 7.
Proof.
  split; [| split].
  - apply (MAX_DAYS_default_when_unset_or_empty ∅). left. reflexivity.
  - apply (MAX_DAYS_default_when_unset_or_empty {[ "MAX_DAYS" := EmptyString ]}).
    right. reflexivity.
  - apply (MAX_DAYS_default_when_unset_or_empty {[ "MAX_DAYS" := "7" ]}) with "7";
      reflexivity.
Defined.

(** ** The date filter *)

Lemma recent_spec Date_parse cutoff item :
  recent Date_parse cutoff item = true ↔ within_lookback Date_parse cutoff item.
Proof.
  unfold recent, within_lookback. destruct (Item.isoDate item) as [s|].
  - destruct s as [|ch s]; simpl.
    + split; [done | intros (s' & t & c & [= <-] & Hne & _); done].
    + unfold JS.Date_ge.
      destruct (Date_parse (String ch s)) as [t|] eqn:Et, cutoff as [c|].
      * rewrite Z.leb_le. split.
        -- intros Hle. by exists (String ch s), t, c.
        -- intros (s' & t' & c' & [= <-] & _ & Ht & [= <-] & Hle). congruence.
      * split; [done | intros (s' & t' & c' & _ & _ & _ & H & _); done].
      * split; [done | intros (s' & t' & c' & [= <-] & _ & Ht & _); congruence].
      * split; [done | intros (s' & t' & c' & _ & _ & _ & H & _); done].
  - split; [done | intros (s' & t & c & H & _); done].
Qed.

Lemma filter_sublist {A} (f : A → bool) (l : list A) : List.filter f l `sublist_of` l.
Proof.
  induction l as [|x l IH]; simpl; [constructor|].
  destruct (f x); by constructor.
Qed.

(** C6: the date filter keeps exactly the items whose date parses and is
    at or after the cutoff, drops every item without a parseable date, and
    keeps the survivors in their original order; with a lookback of 7
    days, of items aged 2, 10 and 5 days and items with no or an
    unparseable date, the 2-day and the 5-day item survive, in that
    order. *)
Theorem date_filter_keeps_recent_in_order :
  (∀ (Date_parse : string → option Z) (cutoff : option Z),
     recentItems Date_parse cutoff {| items := [] |} = []
     ∧ (∀ item rest, within_lookback Date_parse cutoff item →
          recentItems Date_parse cutoff {| items := item :: rest |}
          = item :: recentItems Date_parse cutoff {| items := rest |})
     ∧ (∀ item rest, ¬ within_lookback Date_parse cutoff item →
          recentItems Date_parse cutoff {| items := item :: rest |}
          = recentItems Date_parse cutoff {| items := rest |})
     ∧ (∀ rssNews,
          recentItems Date_parse cutoff rssNews `sublist_of` items rssNews
          ∧ ∀ item, item ∈ recentItems Date_parse cutoff rssNews
                    ↔ item ∈ items rssNews ∧ within_lookback Date_parse cutoff item))
  ∧ ISO.parse "2024-01-20T12:00:00.000Z" = Some test_now
  ∧ recentItems ISO.parse (cutoffDate test_now (Some 7))
      {| items := [item_2_days; item_10_days; item_5_days; item_undated;
                   item_unparseable] |}
    = [item_2_days; item_5_days].
Proof.
  split; [| split; reflexivity].
  intros Date_parse cutoff. split; [done|]. split; [| split].
  - intros item rest H. apply recent_spec in H.
    unfold recentItems. simpl. by rewrite H.
  - intros item rest H. rewrite <- recent_spec in H.
    unfold recentItems. simpl. by destruct (recent Date_parse cutoff item).
  - intros rssNews. split; [apply filter_sublist|].
    intros item. unfold recentItems.
    by rewrite !list_elem_of_In, filter_In, recent_spec.
Qed.

(** ** The scraper *)

Lemma truthy_spec (s : string) : JS.truthy s = true ↔ s ≠ EmptyString.
Proof. by destruct s. Qed.

Lemma extracts_spec header a :
  extracts header a
  ↔ skipped (candidate header) = false ∧ a = article (candidate header).
Proof.
  unfold extracts, skipped, article, candidate. simpl. split.
  - intros (Ht & (p & Hp & Hhref) & (p' & g & d & Hp' & Hg & Hd & Hc) & Nt & Nl & Nc).
    rewrite Hp in *. injection Hp' as <-. rewrite Hhref, Hg, Hd. simpl.
    apply truthy_spec in Nt, Nl, Nc. rewrite <- Ht, <- Hc, Nt, Nl, Nc.
    split; [done|]. clear. destruct a. reflexivity.
  - intros [Hskip ->]. simpl.
    apply orb_false_iff in Hskip as [Hskip Hc].
    apply orb_false_iff in Hskip as [Ht Hl].
    apply negb_false_iff in Ht, Hl, Hc. apply truthy_spec in Ht.
    destruct (DOM.parentElement header) as [p|]; [|done].
    destruct (DOM.getAttribute "href" p) as [l|] eqn:El; [|done].
    destruct (DOM.parentElement p) as [g|] eqn:Eg; [|done].
    destruct (DOM.querySelector "div" g) as [d|] eqn:Ed; [|done].
    simpl in *. apply truthy_spec in Hl, Hc.
    split; [done|]. split; [by exists p|]. split; [by exists p, g, d | done].
Qed.

Lemma fold_left_scrape_header headers news :
  fold_left scrape_header headers news = news ++ articles_of headers.
Proof.
  unfold articles_of. revert news.
  induction headers as [|h hs IH]; intros news; simpl.
  - by rewrite app_nil_r.
  - rewrite IH, (IH (scrape_header [] h)). unfold scrape_header.
    destruct (skipped (candidate h)); simpl; [done|]. by rewrite <- app_assoc.
Qed.

Lemma articles_of_cons header headers :
  articles_of (header :: headers)
  = (if skipped (candidate header) then [] else [article (candidate header)])
    ++ articles_of headers.
Proof.
  unfold articles_of at 1. simpl. rewrite fold_left_scrape_header.
  unfold scrape_header. by destruct (skipped (candidate header)).
Qed.

Lemma articles_of_extracted headers :
  Forall (λ a, ∃ header, header ∈ headers ∧ extracts header a) (articles_of headers).
Proof.
  induction headers as [|h hs IH]; [constructor|].
  rewrite articles_of_cons. apply Forall_app. split.
  - destruct (skipped (candidate h)) eqn:E; constructor; [|constructor].
    exists h. split; [left|]. by apply extracts_spec.
  - eapply Forall_impl; [exact IH|]. intros a [h' [Hin He]].
    exists h'. split; [by right | done].
Qed.

Lemma articles_of_length headers :
  (List.length (articles_of headers) <= List.length headers)%nat
  ∧ (Forall (λ header, ∃ a, extracts header a) headers →
     List.length (articles_of headers) = List.length headers).
Proof.
  induction headers as [|h hs [IHle IHeq]]; [done|].
  rewrite articles_of_cons, length_app. split.
  - destruct (skipped (candidate h)); simpl; lia.
  - intros Hall. inversion Hall as [|? ? [a Ha] Hrest]; subst.
    apply extracts_spec in Ha as [-> _]. simpl. by rewrite IHeq.
Qed.

(** C7: the scraper returns one article for each [h3], in document
    order, whose title (its text), link (the [href] of its parent) and
    content (the text of the first [div] under its grandparent) are all
    non-empty; a heading that misses one of the three adds nothing and
    does not move the others. *)
Theorem scrape_one_article_per_complete_heading :
  (∀ doc, scrape doc = articles_of (DOM.querySelectorAll "h3" doc))
  ∧ articles_of [] = []
  ∧ (∀ header headers a, extracts header a →
       articles_of (header :: headers) = a :: articles_of headers)
  ∧ (∀ header headers, (∀ a, ¬ extracts header a) →
       articles_of (header :: headers) = articles_of headers)
  ∧ (∀ doc, Forall (λ a, ∃ header, header ∈ DOM.querySelectorAll "h3" doc
                                   ∧ extracts header a) (scrape doc))
  ∧ (∀ doc, Forall (λ header, ∃ a, extracts header a) (DOM.querySelectorAll "h3" doc) →
       List.length (scrape doc) = List.length (DOM.querySelectorAll "h3" doc))
  ∧ scrape listing
    = [ {| News.title := "First"; News.link := "https://example.com/a1";
           News.content := "Body one" |};
        {| News.title := "Third"; News.link := "https://example.com/a3";
           News.content := "Body three" |} ].
Proof.
  split; [done|]. split; [done|]. split; [| split; [| split; [| split]]].
  - intros header headers a Ha. apply extracts_spec in Ha as [Hskip ->].
    by rewrite articles_of_cons, Hskip.
  - intros header headers Hnone. rewrite articles_of_cons.
    destruct (skipped (candidate header)) eqn:E; [done|].
    destruct (Hnone (article (candidate header))). by apply extracts_spec.
  - intros doc. apply articles_of_extracted.
  - intros doc. apply articles_of_length.
  - reflexivity.
Qed.

(** ** The scraper never throws *)

(** C8: whatever [axios.get] and the page parser do, [fetchNews]
    resolves; when the download or the parse fails, it resolves to the
    empty list. *)
Theorem fetchNews_never_throws
    (axios_get : nat → string → Thrown + string) (JSDOM : string → Thrown + Node)
    (url : string) (w : World) :
  ∃ news,
    fetchNews axios_get JSDOM url w
    = (Ok news, set_requests (λ l, l ++ [AxiosGet url]) w)
    ∧ match axios_get (List.length (requests w)) url with
      | inl _ => news = []
      | inr data =>
          match JSDOM data with
          | inl _ => news = []
          | inr doc => news = scrape doc
          end
      end.
Proof.
  unfold fetchNews, try_catch, bind, axios_get_data, new_JSDOM.
  destruct (axios_get (List.length (requests w)) url) as [error|data].
  - by exists [].
  - destruct (JSDOM data) as [error|doc].
    + by exists [].
    + by exists (scrape doc).
Qed.

(** ** The writers *)

Lemma app_EmptyString_r (s : string) : s +:+ EmptyString = s.
Proof. induction s as [|c s IH]; [done|]. by rewrite app_String, IH. Qed.

Section WriterFacts.

Variable Date_parse : string → option Z.
Variable xml : string → list Post.t → string.
Variable htmlContent : string → list Post.t → string.

Lemma writeRssFeed_empty feedName posts w :
  default [] (arrays w !! posts) = [] →
  writeRssFeed Date_parse xml feedName posts w
  = (Throw (no_posts feedName), entered Rss feedName [] w).
Proof.
  intros H. unfold writeRssFeed, bind, enter, read_array. simpl. by rewrite H.
Qed.

Lemma writeHtmlFeed_empty feedName posts maxArticles w :
  default [] (arrays w !! posts) = [] →
  writeHtmlFeed Date_parse htmlContent feedName posts maxArticles w
  = (Throw (no_posts feedName), entered Html feedName [] w).
Proof.
  intros H. unfold writeHtmlFeed, bind, enter, read_array. simpl. by rewrite H.
Qed.

(** On a non-empty array the RSS writer sorts the array in place and
    writes the file. *)
Lemma writeRssFeed_nonempty feedName posts w l :
  default [] (arrays w !! posts) = l → l ≠ [] →
  writeRssFeed Date_parse xml feedName posts w
  = (Ok tt,
     set_files (insert ("./static/" +:+ feedName +:+ ".rss")
                  (xml_declaration +:+ xml feedName (sort Date_parse l)))
       (set_arrays (insert posts (sort Date_parse l)) (entered Rss feedName l w))).
Proof.
  intros H Hne. unfold writeRssFeed, bind, enter, read_array. simpl. rewrite H.
  destruct l as [|x l]; [done|]. simpl List.length. cbn [Nat.eqb].
  unfold array_sort, bind, read_array, write_array, ret, writeFile. simpl.
  by rewrite H.
Qed.

(** On a non-empty array the HTML writer sorts the array in place; it
    then writes the file, or throws when a date among the first
    [maxArticles] sorted posts is invalid. *)
Lemma writeHtmlFeed_nonempty feedName posts maxArticles w l :
  default [] (arrays w !! posts) = l → l ≠ [] →
  ∃ outcome w',
    writeHtmlFeed Date_parse htmlContent feedName posts maxArticles w = (outcome, w')
    ∧ arrays w' = <[posts := sort Date_parse l]> (arrays w)
    ∧ handed w' = handed w ++ [ {| writer := Html; feedName := feedName; posts := l |} ]
    ∧ requests w' = requests w ∧ next_ref w' = next_ref w.
Proof.
  intros H Hne. unfold writeHtmlFeed, bind, enter, read_array. simpl. rewrite H.
  destruct l as [|x l]; [done|]. simpl List.length. cbn [Nat.eqb].
  unfold array_sort, bind, read_array, write_array, ret, writeFile. simpl.
  rewrite H.
  destruct (forallb _ _); by do 2 eexists.
Qed.

End WriterFacts.

(** C9: handed an empty list of posts, the RSS writer and the HTML
    writer each throw an error whose message names the feed, and write no
    file. *)
Theorem writers_reject_empty_posts
    (Date_parse : string → option Z) (xml htmlContent : string → list Post.t → string)
    (feedName : string) (posts : ref) (maxArticles : nat) (w : World) :
  default [] (arrays w !! posts) = [] →
  ∃ w1 w2,
    writeRssFeed Date_parse xml feedName posts w
    = (Throw (Error ("No posts found for " +:+ feedName)), w1)
    ∧ files w1 = files w
    ∧ writeHtmlFeed Date_parse htmlContent feedName posts maxArticles w
      = (Throw (Error ("No posts found for " +:+ feedName)), w2)
    ∧ files w2 = files w
    ∧ JS.includes ("No posts found for " +:+ feedName) feedName = true.
Proof.
  intros H. do 2 eexists. split; [by apply writeRssFeed_empty|].
  split; [done|]. split; [by apply writeHtmlFeed_empty|]. split; [done|].
  apply includes_spec. exists "No posts found for ", EmptyString.
  by rewrite app_EmptyString_r.
Qed.

Lemma writers_reject_empty_posts_witness :
  ∃ w1 w2,
    writeRssFeed ISO.parse (λ _ _, "<rss/>") "tech" 0%nat empty_world
    = (Throw (Error "No posts found for tech"), w1)
    ∧ files w1 = ∅
    ∧ writeHtmlFeed ISO.parse (λ _ _, "<html/>") "tech" 0%nat 50 empty_world
      = (Throw (Error "No posts found for tech"), w2)
    ∧ files w2 = ∅
    ∧ JS.includes "No posts found for tech" "tech" = true.
Proof.
  exact (writers_reject_empty_posts ISO.parse (λ _ _, "<rss/>") (λ _ _, "<html/>")
           "tech" 0%nat 50 empty_world eq_refl).
Defined.

(** ** Items without a link *)

Lemma for_of_app {A} (l1 l2 : list A) (body : A → M unit) (w : World) :
  for_of (l1 ++ l2) body w = bind (for_of l1 body) (λ _, for_of l2 body) w.
Proof.
  revert w. induction l1 as [|x l1 IH]; intros w; [done|].
  simpl. unfold bind in *.
  destruct (body x w) as [[[]|error|] w']; [|done|done].
  apply IH.
Qed.

(** C10: an item that passed the date filter but has no link, or an empty
    one, is passed over: nothing is requested for it, nothing is added for
    it, and the loop over the items does what it does without it. *)
Theorem linkless_item_is_skipped
    (axios_get : nat → string → Thrown + string) (JSDOM : string → Thrown + Node)
    (feedNews : ref) (item : Item.t) (before after : list Item.t) (w : World) :
  Item.link item = None ∨ Item.link item = Some EmptyString →
  item_body axios_get JSDOM feedNews item w = (Ok tt, w)
  ∧ for_of (before ++ item :: after) (item_body axios_get JSDOM feedNews) w
    = for_of (before ++ after) (item_body axios_get JSDOM feedNews) w.
Proof.
  intros Hlink.
  assert (∀ w, item_body axios_get JSDOM feedNews item w = (Ok tt, w)) as Hskip.
  { intros w0. unfold item_body. by destruct Hlink as [-> | ->]. }
  split; [apply Hskip|].
  rewrite !for_of_app. unfold bind.
  destruct (for_of before _ w) as [[[]|error|] w']; [|done|done].
  simpl. unfold bind. by rewrite Hskip.
Qed.

Lemma linkless_item_is_skipped_witness :
  item_body (λ _ url, inr url) (λ _, inr listing) 0%nat item_without_link empty_world
  = (Ok tt, empty_world)
  ∧ for_of ([item_2_days] ++ item_without_link :: [item_5_days])
      (item_body (λ _ url, inr url) (λ _, inr listing) 0%nat) empty_world
    = for_of ([item_2_days] ++ [item_5_days])
        (item_body (λ _ url, inr url) (λ _, inr listing) 0%nat) empty_world.
Proof.
  exact (linkless_item_is_skipped (λ _ url, inr url) (λ _, inr listing) 0%nat
           item_without_link [item_2_days] [item_5_days] empty_world
           (or_introl eq_refl)).
Defined.

(** ** Sorting by date *)

Section SortFacts.

Variable Date_parse : string → option Z.

Lemma SortCompare_valid a b ta tb :
  Date_parse (Post.date a) = Some ta → Date_parse (Post.date b) = Some tb →
  SortCompare Date_parse a b = tb - ta.
Proof. intros Ha Hb. unfold SortCompare, compareFn. by rewrite Ha, Hb. Qed.

Lemma insert_sorted_Permutation x l : Permutation (insert_sorted Date_parse x l) (x :: l).
Proof.
  induction l as [|y l IH]; simpl; [done|].
  destruct (SortCompare Date_parse x y <=? 0); [done|].
  rewrite IH. apply perm_swap.
Qed.

Lemma sort_Permutation l : Permutation (sort Date_parse l) l.
Proof.
  induction l as [|x l IH]; simpl; [done|].
  rewrite insert_sorted_Permutation. by constructor.
Qed.

Lemma sort_nil_inv l : sort Date_parse l = [] → l = [].
Proof.
  intros H. apply Permutation_nil. rewrite <- H. apply sort_Permutation.
Qed.

Lemma sort_valid l : Forall (valid_date Date_parse) l → Forall (valid_date Date_parse) (sort Date_parse l).
Proof. intros H. by rewrite sort_Permutation. Qed.

Lemma insert_sorted_sorted x l :
  (valid_date Date_parse) x → Forall (valid_date Date_parse) l →
  StronglySorted (not_older Date_parse) l → StronglySorted (not_older Date_parse) (insert_sorted Date_parse x l).
Proof.
  intros [tx Hx] Hvalid Hsorted.
  induction Hsorted as [|y l Hsorted IH Hy]; simpl.
  - repeat constructor.
  - inversion Hvalid as [|? ? [ty Hty] Hvl]; subst.
    rewrite (SortCompare_valid x y tx ty) by done.
    destruct (Z.leb_spec (ty - tx) 0) as [Hle|Hgt].
    + constructor; [by constructor|]. constructor.
      * exists tx, ty. repeat split; [done..|lia].
      * eapply Forall_impl; [exact Hy|].
        intros z (ty' & tz & Hy' & Hz & Hle'). exists tx, tz.
        repeat split; [done..|]. rewrite Hty in Hy'. injection Hy' as <-. lia.
    + constructor; [by apply IH|].
      rewrite insert_sorted_Permutation. constructor; [|done].
      exists ty, tx. repeat split; [done..|lia].
Qed.

(** On posts with valid dates the sort puts the most recent first. *)
Lemma sort_sorted l :
  Forall (valid_date Date_parse) l → StronglySorted (not_older Date_parse) (sort Date_parse l).
Proof.
  induction 1 as [|x l Hx Hl IH]; simpl; [constructor|].
  apply insert_sorted_sorted; [done | by apply sort_valid | done].
Qed.

(** A list that is already most-recent-first is left as it is. *)
Lemma sort_already_sorted l :
  StronglySorted (not_older Date_parse) l → sort Date_parse l = l.
Proof.
  induction 1 as [|x l Hsorted IH Hx]; simpl; [done|].
  rewrite IH. destruct l as [|y l]; [done|]. simpl.
  inversion Hx as [|? ? (tx & ty & Htx & Hty & Hle) _]; subst.
  rewrite (SortCompare_valid x y tx ty) by done.
  destruct (Z.leb_spec (ty - tx) 0); [done | lia].
Qed.

Lemma sort_idempotent l :
  Forall (valid_date Date_parse) l → sort Date_parse (sort Date_parse l) = sort Date_parse l.
Proof. intros H. by apply sort_already_sorted, sort_sorted. Qed.

(** The sort is stable: posts of one and the same time keep their order. *)
Lemma insert_sorted_stable (t : Z) x l :
  (valid_date Date_parse) x → Forall (valid_date Date_parse) l →
  List.filter (λ p, bool_decide (Date_parse (Post.date p) = Some t))
    (insert_sorted Date_parse x l)
  = List.filter (λ p, bool_decide (Date_parse (Post.date p) = Some t)) (x :: l).
Proof.
  intros [tx Hx] Hvalid. induction Hvalid as [|y l [ty Hy] Hl IH]; [done|].
  cbn [insert_sorted]. rewrite (SortCompare_valid x y tx ty) by done.
  destruct (Z.leb_spec (ty - tx) 0) as [Hle|Hgt]; [done|].
  cbn [List.filter] in *. rewrite IH.
  destruct (bool_decide_reflect (Date_parse (Post.date x) = Some t)) as [Ex|Ex];
    destruct (bool_decide_reflect (Date_parse (Post.date y) = Some t)) as [Ey|Ey];
    try done.
  rewrite Hx in Ex. rewrite Hy in Ey. injection Ex as ->. injection Ey as ->. lia.
Qed.

Lemma sort_stable (t : Z) l :
  Forall (valid_date Date_parse) l →
  List.filter (λ p, bool_decide (Date_parse (Post.date p) = Some t)) (sort Date_parse l)
  = List.filter (λ p, bool_decide (Date_parse (Post.date p) = Some t)) l.
Proof.
  induction 1 as [|x l Hx Hl IH]; [done|].
  cbn [sort foldr]. fold (sort Date_parse l).
  rewrite insert_sorted_stable by (done || by apply sort_valid).
  cbn [List.filter]. by rewrite IH.
Qed.

End SortFacts.

(** ** The aggregation loop *)

Lemma bind_Ok {A B} (m : M A) (k : A → M B) (w w' : World) (b : B) :
  bind m k w = (Ok b, w') → ∃ a w1, m w = (Ok a, w1) ∧ k a w1 = (Ok b, w').
Proof.
  unfold bind. destruct (m w) as [[a|error|] w1]; [|done|done].
  intros H. by exists a, w1.
Qed.

Lemma extends_refl f w : extends f [] [] w w.
Proof. unfold extends. by rewrite !app_nil_r. Qed.

Lemma extends_trans f l1 l2 r1 r2 w w1 w2 :
  extends f l1 r1 w w1 → extends f l2 r2 w1 w2 → extends f (l1 ++ l2) (r1 ++ r2) w w2.
Proof.
  intros (Ha & Ho & Hh & Hn & Hr) (Ha' & Ho' & Hh' & Hn' & Hr').
  unfold extends. rewrite Ha', Ha, Hh', Hn', Hr', Hr, !app_assoc.
  repeat split; try done. intros r Hne. by rewrite Ho', Ho.
Qed.

Lemma push_extends f l w :
  ∃ w', push f l w = (Ok tt, w') ∧ extends f l [] w w'.
Proof.
  eexists. split; [reflexivity|]. unfold extends. simpl.
  rewrite lookup_insert_eq, app_nil_r. repeat split; try done.
  intros r Hne. by rewrite lookup_insert_ne.
Qed.

Lemma for_of_push_extends f isoDate news w :
  ∃ w', for_of news (λ currentNews, push f [ {|
            Post.title := News.title currentNews; Post.link := News.link currentNews;
            Post.content := News.content currentNews; Post.date := isoDate |} ]) w
        = (Ok tt, w')
        ∧ extends f (List.map (λ currentNews, {|
            Post.title := News.title currentNews; Post.link := News.link currentNews;
            Post.content := News.content currentNews; Post.date := isoDate |}) news)
            [] w w'.
Proof.
  revert w. induction news as [|n news IH]; intros w.
  - exists w. split; [done | apply extends_refl].
  - cbn [for_of]. unfold bind.
    destruct (push_extends f [ {|
        Post.title := News.title n; Post.link := News.link n;
        Post.content := News.content n; Post.date := isoDate |} ] w)
      as (w1 & -> & H1).
    destruct (IH w1) as (w2 & -> & H2). exists w2. split; [done|].
    apply (extends_trans f _ _ [] [] w w1 w2 H1 H2).
Qed.

Section AggregatorFacts.

Variable parseURL : nat → string → Thrown + Output.
Variable axios_get : nat → string → Thrown + string.
Variable JSDOM : string → Thrown + Node.
Variable Date_parse : string → option Z.
Variable xml : string → list Post.t → string.
Variable htmlContent : string → list Post.t → string.

Lemma fetchNews_fetched url w :
  fetchNews axios_get JSDOM url w
  = (Ok (fetched axios_get JSDOM (List.length (requests w)) url),
     set_requests (λ l, l ++ [AxiosGet url]) w).
Proof.
  unfold fetchNews, fetched, try_catch, bind, axios_get_data, new_JSDOM.
  destruct (axios_get (List.length (requests w)) url) as [error|data]; [done|].
  by destruct (JSDOM data) as [error|doc].
Qed.

Lemma item_body_extends f item w :
  ∃ w', item_body axios_get JSDOM f item w = (Ok tt, w')
        ∧ extends f (item_posts axios_get JSDOM (List.length (requests w)) item) (item_requests item) w w'.
Proof.
  unfold item_body, item_posts, item_requests, has_link_and_date.
  destruct (JS.truthy_opt (Item.link item) && JS.truthy_opt (Item.isoDate item)).
  - unfold bind. rewrite fetchNews_fetched.
    destruct (for_of_push_extends f (default EmptyString (Item.isoDate item))
                (fetched axios_get JSDOM (List.length (requests w)) (default EmptyString (Item.link item)))
                (set_requests (λ l, l ++ [AxiosGet (default EmptyString (Item.link item))]) w))
      as (w' & Hrun & Hext).
    exists w'. split; [exact Hrun|].
    destruct Hext as (Ha & Ho & Hh & Hn & Hr). unfold extends.
    rewrite Ha, Hh, Hn, Hr. simpl. rewrite app_nil_r. repeat split; try done.
  - exists w. split; [done | apply extends_refl].
Qed.

Lemma items_loop_extends f items w :
  ∃ w', for_of items (item_body axios_get JSDOM f) w = (Ok tt, w')
        ∧ extends f (collected axios_get JSDOM (List.length (requests w)) items)
            (List.flat_map item_requests items) w w'.
Proof.
  revert w. induction items as [|item items IH]; intros w.
  - exists w. split; [done | apply extends_refl].
  - cbn [for_of]. unfold bind.
    destruct (item_body_extends f item w) as (w1 & -> & H1).
    destruct (IH w1) as (w2 & -> & H2). exists w2. split; [done|].
    simpl. eapply extends_trans; [exact H1|].
    destruct H1 as (_ & _ & _ & _ & Hr). rewrite Hr, length_app in H2. exact H2.
Qed.

End AggregatorFacts.

(** A fetch changes nothing but the requests made and the waits. *)
Lemma iteration_after_fetch parseURL feed attemptCount w outcome w' :
  iteration parseURL feed attemptCount w = (outcome, w') →
  ∃ delays, w' = after_fetch [ParseURL feed] delays w.
Proof.
  intros H.
  destruct (parseURL (List.length (requests w)) feed) as [error|out] eqn:E.
  - destruct (is429Error error) eqn:E429.
    + destruct (Z.le_gt_cases (attemptCount + 1) maxRetries).
      * rewrite (iteration_retry _ _ _ _ error) in H by done.
        injection H as _ <-. by eexists.
      * rewrite (iteration_throw _ _ _ _ error) in H by (done || (right; lia)).
        injection H as _ <-. by eexists.
    + rewrite (iteration_throw _ _ _ _ error) in H by (done || by left).
      injection H as _ <-. by eexists.
  - rewrite (iteration_success _ _ _ _ out) in H by done.
    injection H as _ <-. by eexists.
Qed.

Lemma while_loop_after_fetch parseURL feed fuel attemptCount w outcome w' :
  while_loop parseURL fuel feed attemptCount w = (outcome, w') →
  ∃ reqs delays, w' = after_fetch reqs delays w.
Proof.
  assert (w = after_fetch [] [] w) as Hid.
  { unfold after_fetch, set_timeouts, set_requests. destruct w. simpl.
    by rewrite !app_nil_r. }
  revert attemptCount w outcome w' Hid.
  induction fuel as [|fuel IH]; intros attemptCount w outcome w' Hid;
    cbn [while_loop]; destruct (attemptCount <=? maxRetries);
    try (intros [= _ <-]; by exists [], []).
  unfold bind.
  destruct (iteration parseURL feed attemptCount w) as [[step|error|] w1] eqn:E;
    apply iteration_after_fetch in E as [d ->].
  - destruct step as [out|attemptCount'].
    + intros [= _ <-]. by eexists _, _.
    + intros H. apply IH in H as (reqs & d' & ->).
      * rewrite after_fetch_after_fetch. by eexists _, _.
      * unfold after_fetch, set_timeouts, set_requests. simpl.
        by rewrite !app_nil_r.
  - intros [= _ <-]. by eexists _, _.
  - intros [= _ <-]. by eexists _, _.
Qed.

Section AggregatorRun.

Variable parseURL : nat → string → Thrown + Output.
Variable axios_get : nat → string → Thrown + string.
Variable JSDOM : string → Thrown + Node.
Variable Date_parse : string → option Z.
Variable xml : string → list Post.t → string.
Variable htmlContent : string → list Post.t → string.

(** Every post collected from items that passed the date filter carries
    a date that parses. *)
Lemma collected_valid cutoff k items :
  Forall (λ item, recent Date_parse cutoff item = true) items →
  Forall (valid_date Date_parse) (collected axios_get JSDOM k items).
Proof.
  intros H. revert k. induction H as [|item items Hitem Hitems IH]; intros k.
  - constructor.
  - simpl. apply Forall_app. split; [|apply IH].
    unfold item_posts. destruct (has_link_and_date item); [|constructor].
    apply Forall_forall. intros post Hin.
    apply list_elem_of_In, in_map_iff in Hin as [n [<- _]].
    apply recent_spec in Hitem as (s & t & c & Hs & _ & Ht & _).
    unfold valid_date. simpl. rewrite Hs. simpl. by rewrite Ht.
Qed.

Lemma recentItems_recent cutoff rssNews :
  Forall (λ item, recent Date_parse cutoff item = true)
         (recentItems Date_parse cutoff rssNews).
Proof.
  apply Forall_forall. intros item Hin. unfold recentItems in Hin.
  by apply list_elem_of_In, filter_In in Hin as [_ ?].
Qed.

Lemma feed_body_done cutoff (d : ref) name w w' :
  (d < next_ref w)%nat →
  feed_body parseURL axios_get JSDOM Date_parse xml htmlContent cutoff d name w
  = (Ok tt, w') →
  ∃ A, topic_done axios_get JSDOM Date_parse cutoff d name A w w'.
Proof.
  intros Hd Hrun. unfold feed_body in Hrun.
  apply bind_Ok in Hrun as (f & w1 & Hnew & Hrun).
  injection Hnew as <- <-.
  apply bind_Ok in Hrun as (out & w2 & Hfeed & Hrun).
  apply while_loop_after_fetch in Hfeed as (reqs & delays & ->).
  apply bind_Ok in Hrun as ([] & w3 & Hitems & Hrun).
  match type of Hitems with for_of ?items _ ?w0 = _ =>
    destruct (items_loop_extends axios_get JSDOM (next_ref w) items w0)
      as (w3' & Hitems' & Ha & Ho & Hh & Hn & _)
  end.
  rewrite Hitems' in Hitems. injection Hitems as ->.
  simpl in Ha, Ho, Hh, Hn. rewrite lookup_insert_eq in Ha. simpl in Ha.
  set (A := collected axios_get JSDOM _ _) in Ha.
  apply bind_Ok in Hrun as ([] & w4 & Hrss & Hrun).
  destruct (decide (A = [])) as [Hnil|Hne].
  { rewrite writeRssFeed_empty in Hrss by congruence. discriminate. }
  rewrite (writeRssFeed_nonempty _ _ _ _ _ A) in Hrss by done.
  injection Hrss as <-.
  apply bind_Ok in Hrun as ([] & w5 & Hhtml & Hrun).
  destruct (writeHtmlFeed_nonempty Date_parse htmlContent name (next_ref w) 50
              (set_files (insert ("./static/" +:+ name +:+ ".rss")
                 (xml_declaration +:+ xml name (sort Date_parse A)))
                 (set_arrays (insert (next_ref w) (sort Date_parse A))
                    (entered Rss name A w3)))
              (sort Date_parse A))
    as (o & w5' & Hhtml' & Harr & Hhan & _ & Hnext).
  { simpl. by rewrite lookup_insert_eq. }
  { intros Hs. by apply sort_nil_inv in Hs. }
  rewrite Hhtml' in Hhtml. injection Hhtml as -> ->.
  simpl in Harr, Hhan, Hnext.
  apply bind_Ok in Hrun as (l & w6 & Hread & Hpush).
  injection Hread as <- <-.
  injection Hpush as <-.
  assert (Forall (valid_date Date_parse) A) as Hvalid.
  { apply (collected_valid cutoff), recentItems_recent. }
  exists A. unfold topic_done. split; [done|]. split; [by eexists _, _|].
  simpl. rewrite Hhan, Hh, Hnext, Hn, Harr. simpl.
  rewrite lookup_insert_eq. simpl.
  rewrite !lookup_insert_ne by lia. rewrite Ho by lia.
  rewrite lookup_insert_ne by lia.
  rewrite lookup_insert_eq. simpl.
  rewrite sort_idempotent by done.
  rewrite <- app_assoc. done.
Qed.

End AggregatorRun.

Section AggregatorTopics.

Variable parseURL : nat → string → Thrown + Output.
Variable axios_get : nat → string → Thrown + string.
Variable JSDOM : string → Thrown + Node.
Variable Date_parse : string → option Z.
Variable xml : string → list Post.t → string.
Variable htmlContent : string → list Post.t → string.

Lemma topics_loop_done cutoff (d : ref) topics w w' :
  (d < next_ref w)%nat →
  for_of topics
    (feed_body parseURL axios_get JSDOM Date_parse xml htmlContent cutoff d) w
  = (Ok tt, w') →
  ∃ As,
    List.length As = List.length topics
    ∧ Forall (λ A, A ≠ [] ∧ collected_from_feed axios_get JSDOM Date_parse cutoff A) As
    ∧ handed w' = handed w ++ topic_calls Date_parse topics As
    ∧ default [] (arrays w' !! d)
      = default [] (arrays w !! d) ++ concat (List.map (sort Date_parse) As)
    ∧ (d < next_ref w')%nat.
Proof.
  revert w. induction topics as [|name topics IH]; intros w Hd Hrun.
  - injection Hrun as <-. exists []. simpl. by rewrite !app_nil_r.
  - cbn [for_of] in Hrun. apply bind_Ok in Hrun as ([] & w1 & Hbody & Hrest).
    apply feed_body_done in Hbody as (A & Hne & Hfrom & Hh & Ha & Hn); [|done].
    apply IH in Hrest as (As & Hlen & Hall & Hh' & Ha' & Hd'); [|lia].
    exists (A :: As). simpl. rewrite Hlen, Hh', Hh, Ha', Ha, <- !app_assoc.
    repeat split; try done. by constructor.
Qed.

End AggregatorTopics.

(** *** A run over two topics *)

(** C5, as stated, fails: [tech] appends its older post first, the
    writers of [tech] sort the topic's array in place, and the combined
    feed that the last writer is handed holds the posts of [tech] most
    recent first, not in the order they were appended. *)
Lemma combined_feed_not_in_append_order :
  two_topics_run.1 = Ok [post_ai; post_tech_newer; post_tech_older]
  ∧ handed two_topics_run.2
    = [ {| writer := Rss; feedName := "tech";
           posts := [post_tech_older; post_tech_newer] |};
        {| writer := Html; feedName := "tech";
           posts := [post_tech_newer; post_tech_older] |};
        {| writer := Rss; feedName := "ai"; posts := [post_ai] |};
        {| writer := Html; feedName := "ai"; posts := [post_ai] |};
        {| writer := Rss; feedName := "feed";
           posts := [post_tech_newer; post_tech_older; post_ai] |} ]
  ∧ [post_tech_newer; post_tech_older; post_ai]
    ≠ [post_tech_older; post_tech_newer] ++ [post_ai].
Proof. split; [|split]; [by vm_compute | by vm_compute | discriminate]. Qed.

(** C5, amended: when a run completes, the combined feed handed to the
    RSS writer after all topics is the concatenation, in the order of the
    topics, of each topic's list as the topic's own writers left it:
    the posts the topic appended, sorted by date with the most recent
    first and posts of one date in the order they were appended.  It is
    the concatenation of the lists as appended when every topic appended
    its posts most recent first. *)
Theorem combined_feed_is_topics_sorted_by_date
    (parseURL : nat → string → Thrown + Output)
    (axios_get : nat → string → Thrown + string) (JSDOM : string → Thrown + Node)
    (Date_parse : string → option Z) (xml htmlContent : string → list Post.t → string)
    (topics : list string) (env : gmap string string) (now : Z)
    (w w' : World) (result : list Post.t) :
  fetchFeeds_over parseURL axios_get JSDOM Date_parse xml htmlContent topics env now w
  = (Ok result, w') →
  ∃ As : list (list Post.t),
    List.length As = List.length topics
    ∧ Forall (collected_from_feed axios_get JSDOM Date_parse
                (cutoffDate now (MAX_DAYS env))) As
    ∧ handed w'
      = handed w ++ topic_calls Date_parse topics As
        ++ [ {| writer := Rss; feedName := "feed";
                posts := concat (List.map (sort Date_parse) As) |} ]
    ∧ Forall (λ A, Permutation (sort Date_parse A) A
                   ∧ StronglySorted (not_older Date_parse) (sort Date_parse A)
                   ∧ ∀ t, List.filter
                            (λ p, bool_decide (Date_parse (Post.date p) = Some t))
                            (sort Date_parse A)
                          = List.filter
                              (λ p, bool_decide (Date_parse (Post.date p) = Some t)) A)
             As
    ∧ (Forall (StronglySorted (not_older Date_parse)) As →
       concat (List.map (sort Date_parse) As) = concat As).
Proof.
  intros Hrun. unfold fetchFeeds_over in Hrun.
  apply bind_Ok in Hrun as (d & w1 & Hnew & Hrun). injection Hnew as <- <-.
  apply bind_Ok in Hrun as ([] & w2 & Hloop & Hrun).
  apply topics_loop_done in Hloop as (As & Hlen & Hall & Hh & Ha & Hd);
    [|simpl; lia].
  simpl in Hh, Ha. rewrite lookup_insert_eq in Ha. simpl in Ha.
  apply bind_Ok in Hrun as ([] & w3 & Hrss & Hread).
  injection Hread as _ <-.
  destruct (decide (concat (List.map (sort Date_parse) As) = [])) as [Hnil|Hne].
  { rewrite writeRssFeed_empty in Hrss by congruence. discriminate. }
  rewrite (writeRssFeed_nonempty _ _ _ _ _ _ Ha Hne) in Hrss. injection Hrss as <-.
  exists As. split; [done|]. split.
  { eapply Forall_impl; [exact Hall|]. by intros A [_ ?]. }
  split; [simpl; by rewrite Hh, <- app_assoc|]. split.
  - eapply Forall_impl; [exact Hall|]. intros A [_ (k & out & ->)].
    assert (Forall (valid_date Date_parse)
              (collected axios_get JSDOM k
                 (recentItems Date_parse (cutoffDate now (MAX_DAYS env)) out))) as Hvalid.
    { eapply collected_valid, recentItems_recent. }
    split; [apply sort_Permutation|]. split; [by apply sort_sorted|].
    intros t. by apply sort_stable.
  - intros Hsorted. f_equal. clear -Hsorted.
    induction Hsorted as [|A As HA HAs IH]; [done|]. simpl.
    by rewrite IH, sort_already_sorted.
Qed.

Lemma combined_feed_is_topics_sorted_by_date_witness :
  ∃ As : list (list Post.t),
    List.length As = 2%nat
    ∧ handed two_topics_run.2
      = topic_calls ISO.parse ["tech"; "ai"] As
        ++ [ {| writer := Rss; feedName := "feed";
                posts := concat (List.map (sort ISO.parse) As) |} ].
Proof.
  destruct (combined_feed_is_topics_sorted_by_date two_topics_parseURL
              (λ _ url, inr url) (λ data, inr (one_article_page data))
              ISO.parse (λ _ _, "<rss/>") (λ _ _, "<html/>") ["tech"; "ai"] ∅ test_now
              empty_world two_topics_run.2
              [post_ai; post_tech_newer; post_tech_older])
    as (As & Hlen & _ & Hh & _).
  - vm_compute. reflexivity.
  - exists As. split; [exact Hlen | exact Hh].
Defined.

(** * Further properties of the code *)

(** ** HTML escaping *)

Lemma app_EmptyString_l (t : string) : EmptyString +:+ t = t.
Proof. reflexivity. Qed.

Lemma string_app_assoc (a b c : string) : (a +:+ b) +:+ c = a +:+ (b +:+ c).
Proof. induction a as [|x a IH]; [done|]. by rewrite !app_String, IH. Qed.

Lemma string_app_length (a b : string) :
  String.length (a +:+ b) = (String.length a + String.length b)%nat.
Proof. induction a as [|x a IH]; [done|]. rewrite app_String. simpl. by rewrite IH. Qed.

Lemma occurs_app c a b : occurs c (a +:+ b) = occurs c a || occurs c b.
Proof.
  induction a as [|x a IH]; [done|]. rewrite app_String. simpl.
  by rewrite IH, orb_assoc.
Qed.

Lemma replace_each_app re replacer a b :
  replace_each re replacer (a +:+ b)
  = replace_each re replacer a +:+ replace_each re replacer b.
Proof.
  induction a as [|x a IH]; [done|]. rewrite app_String. simpl.
  by rewrite IH, string_app_assoc.
Qed.

Lemma escapeHtml_cons m text :
  escapeHtml (String m text) = escaped_char m +:+ escapeHtml text.
Proof. reflexivity. Qed.

(** The five characters of the class and what replaces each; any other
    character stands for itself. *)
Lemma escaped_char_cases m :
  (m = "&"%char ∧ escaped_char m = "&amp;")
  ∨ (m = "<"%char ∧ escaped_char m = "&lt;")
  ∨ (m = ">"%char ∧ escaped_char m = "&gt;")
  ∨ (m = double_quote ∧ escaped_char m = "&quot;")
  ∨ (m = "'"%char ∧ escaped_char m = "&#039;")
  ∨ (escapeHtml_class m = false ∧ escaped_char m = String m EmptyString
     ∧ m ≠ "&"%char ∧ m ≠ "<"%char ∧ m ≠ ">"%char ∧ m ≠ double_quote
     ∧ m ≠ "'"%char).
Proof.
  unfold escaped_char, escapeHtml_class.
  destruct (Ascii.eqb_spec m "&") as [->|?]; [by left|].
  destruct (Ascii.eqb_spec m "<") as [->|?]; [by right; left|].
  destruct (Ascii.eqb_spec m ">") as [->|?]; [by right; right; left|].
  destruct (Ascii.eqb_spec m double_quote) as [->|?]; [by right; right; right; left|].
  destruct (Ascii.eqb_spec m "'") as [->|?]; [by right; right; right; right; left|].
  by repeat right.
Qed.

Lemma occurs_singleton c m : occurs c (String m EmptyString) = Ascii.eqb m c.
Proof. simpl. by rewrite orb_false_r. Qed.

(** X1: the text that [escapeHtml] returns holds no less-than, no
    greater-than, no double quote and no single quote, whatever the
    input. *)
Theorem escapeHtml_leaves_no_markup (text : string) :
  occurs "<" (escapeHtml text) = false
  ∧ occurs ">" (escapeHtml text) = false
  ∧ occurs double_quote (escapeHtml text) = false
  ∧ occurs "'" (escapeHtml text) = false.
Proof.
  induction text as [|m text (IH1 & IH2 & IH3 & IH4)]; [done|].
  rewrite escapeHtml_cons, !occurs_app, IH1, IH2, IH3, IH4, !orb_false_r.
  destruct (escaped_char_cases m)
    as [[-> ->]|[[-> ->]|[[-> ->]|[[-> ->]|[[-> ->]|(_ & -> & ? & ? & ? & ? & ?)]]]]];
    try done.
  rewrite !occurs_singleton.
  by repeat split; apply Ascii.eqb_neq.
Qed.

(** X2: [escapeHtml] loses nothing: two texts with the same escaped form
    are the same text. *)
Theorem escapeHtml_injective (a b : string) :
  escapeHtml a = escapeHtml b → a = b.
Proof.
  revert b. induction a as [|x a IH]; intros [|y b] H.
  - done.
  - rewrite escapeHtml_cons in H.
    destruct (escaped_char_cases y)
      as [[_ E]|[[_ E]|[[_ E]|[[_ E]|[[_ E]|(_ & E & _)]]]]];
      rewrite E in H; discriminate.
  - rewrite escapeHtml_cons in H.
    destruct (escaped_char_cases x)
      as [[_ E]|[[_ E]|[[_ E]|[[_ E]|[[_ E]|(_ & E & _)]]]]];
      rewrite E in H; discriminate.
  - rewrite !escapeHtml_cons in H.
    destruct (escaped_char_cases x)
      as [[-> E]|[[-> E]|[[-> E]|[[-> E]|[[-> E]|(_ & E & ? & ? & ? & ? & ?)]]]]];
      destruct (escaped_char_cases y)
        as [[-> E']|[[-> E']|[[-> E']|[[-> E']|[[-> E']|(_ & E' & ? & ? & ? & ? & ?)]]]]];
      rewrite ?E, ?E' in H; rewrite ?app_String, ?app_EmptyString_l in H;
      try discriminate;
      try (injection H as H; f_equal; by apply IH);
      try (injection H as ? H; congruence).
    injection H as -> H. f_equal. by apply IH.
Qed.

Lemma escapeHtml_injective_witness :
  escapeHtml "O'Brien & <b>Co</b>" = "O&#039;Brien &amp; &lt;b&gt;Co&lt;/b&gt;"
  ∧ "O'Brien & <b>Co</b>" = "O'Brien & <b>Co</b>".
Proof.
  split; [reflexivity|].
  apply (escapeHtml_injective "O'Brien & <b>Co</b>" "O'Brien & <b>Co</b>").
  reflexivity.
Defined.

Lemma escapeHtmlAttr_app a b :
  escapeHtmlAttr (a +:+ b) = escapeHtmlAttr a +:+ escapeHtmlAttr b.
Proof. unfold escapeHtmlAttr. by rewrite !replace_each_app. Qed.

Lemma replace_each_char re replacer m :
  replace_each re replacer (String m EmptyString)
  = if re m then replacer m else String m EmptyString.
Proof. cbn [replace_each]. by rewrite app_EmptyString_r. Qed.

Lemma escapeHtmlAttr_char m :
  escapeHtmlAttr (String m EmptyString) = escaped_attr_char m.
Proof.
  unfold escapeHtmlAttr, escaped_attr_char. rewrite replace_each_char.
  rewrite (Ascii.eqb_sym "&" m).
  destruct (Ascii.eqb_spec m "&") as [->|Hamp]; [done|].
  rewrite replace_each_char, (Ascii.eqb_sym double_quote m).
  destruct (Ascii.eqb_spec m double_quote) as [->|Hdq]; [done|].
  rewrite replace_each_char, (Ascii.eqb_sym "'" m).
  by destruct (Ascii.eqb_spec m "'") as [->|Hsq].
Qed.

Lemma escapeHtmlAttr_cons m text :
  escapeHtmlAttr (String m text) = escaped_attr_char m +:+ escapeHtmlAttr text.
Proof.
  change (String m text) with (String m EmptyString +:+ text).
  by rewrite escapeHtmlAttr_app, escapeHtmlAttr_char.
Qed.

(** X3: the three [replace] calls of [escapeHtmlAttr] act as one pass
    over the input: every ampersand, double quote and single quote of the
    input is replaced once by its entity, every other character is kept,
    and the ampersands that the entities bring in are not escaped
    again. *)
Theorem escapeHtmlAttr_is_one_pass (text : string) :
  escapeHtmlAttr text
  = replace_each
      (λ m, Ascii.eqb m "&" || Ascii.eqb m double_quote || Ascii.eqb m "'")
      escaped_attr_char text.
Proof.
  induction text as [|m text IH]; [done|].
  rewrite escapeHtmlAttr_cons, IH. cbn [replace_each]. f_equal.
  unfold escaped_attr_char.
  by destruct (Ascii.eqb m "&"), (Ascii.eqb m double_quote), (Ascii.eqb m "'").
Qed.

(** X4: the value that [escapeHtmlAttr] returns holds no double quote and
    no single quote, so it cannot end the attribute it is put in; a
    less-than or greater-than sign of the input is passed through as it
    is. *)
Theorem escapeHtmlAttr_leaves_no_quote (text : string) :
  occurs double_quote (escapeHtmlAttr text) = false
  ∧ occurs "'" (escapeHtmlAttr text) = false
  ∧ occurs "<" (escapeHtmlAttr text) = occurs "<" text
  ∧ occurs ">" (escapeHtmlAttr text) = occurs ">" text.
Proof.
  induction text as [|m text (IH1 & IH2 & IH3 & IH4)]; [done|].
  rewrite escapeHtmlAttr_cons, !occurs_app, IH1, IH2, IH3, IH4, !orb_false_r.
  unfold escaped_attr_char.
  destruct (Ascii.eqb_spec m "&") as [->|?]; [done|].
  destruct (Ascii.eqb_spec m double_quote) as [->|?]; [done|].
  destruct (Ascii.eqb_spec m "'") as [->|?]; [done|].
  rewrite !occurs_singleton. simpl.
  by repeat split; try apply Ascii.eqb_neq.
Qed.

(** X5: on a text without less-than and greater-than signs the two
    escaping functions agree. *)
Theorem escapeHtmlAttr_agrees_with_escapeHtml (text : string) :
  occurs "<" text = false → occurs ">" text = false →
  escapeHtmlAttr text = escapeHtml text.
Proof.
  induction text as [|m text IH]; [done|]. simpl occurs.
  intros [Hlt Hlt']%orb_false_iff [Hgt Hgt']%orb_false_iff.
  rewrite escapeHtmlAttr_cons, escapeHtml_cons, IH by done. f_equal.
  apply Ascii.eqb_neq in Hlt, Hgt. unfold escaped_attr_char.
  destruct (escaped_char_cases m)
    as [[-> ->]|[[-> ->]|[[-> ->]|[[-> ->]|[[-> ->]|(_ & -> & ? & ? & ? & ? & ?)]]]]];
    try done.
  destruct (Ascii.eqb_spec m "&"); [done|].
  destruct (Ascii.eqb_spec m double_quote); [done|].
  by destruct (Ascii.eqb_spec m "'").
Qed.

Lemma escapeHtmlAttr_agrees_with_escapeHtml_witness :
  escapeHtmlAttr "https://example.com/article?name=O'Brien&x=1"
  = escapeHtml "https://example.com/article?name=O'Brien&x=1".
Proof.
  apply escapeHtmlAttr_agrees_with_escapeHtml; reflexivity.
Defined.

Lemma escapeHtml_length (text : string) :
  (String.length text <= String.length (escapeHtml text))%nat.
Proof.
  induction text as [|m text IH]; [done|].
  rewrite escapeHtml_cons, string_app_length. simpl.
  destruct (escaped_char_cases m)
    as [[_ ->]|[[_ ->]|[[_ ->]|[[_ ->]|[[_ ->]|(_ & -> & _)]]]]]; simpl; lia.
Qed.

(** X6: [escapeHtml] returns its input unchanged exactly when the input
    holds none of the five characters; and escaping an escaped text again
    changes it unless the text held none of them. *)
Theorem escapeHtml_unchanged_iff_clean (text : string) :
  (escapeHtml text = text ↔ ∀ m, escapeHtml_class m = true → occurs m text = false)
  ∧ (escapeHtml (escapeHtml text) = escapeHtml text
     ↔ ∀ m, escapeHtml_class m = true → occurs m text = false).
Proof.
  assert (∀ t, escapeHtml t = t
               ↔ ∀ m, escapeHtml_class m = true → occurs m t = false) as Hfix.
  { induction t as [|x t IH]; [done|]. rewrite escapeHtml_cons. split.
    - intros H m Hm. simpl.
      destruct (escaped_char_cases x)
        as [[-> E]|[[-> E]|[[-> E]|[[-> E]|[[-> E]|(Hx & E & _)]]]]];
        rewrite E in H; rewrite ?app_String, ?app_EmptyString_l in H;
        try discriminate.
      + injection H as H. pose proof (escapeHtml_length t) as Hlen.
        rewrite <- H in Hlen at 1. simpl in Hlen. lia.
      + injection H as H. rewrite (proj1 IH H m Hm), orb_false_r.
        apply Ascii.eqb_neq. intros ->. congruence.
    - intros Hclean.
      assert (escapeHtml_class x = false) as Hx.
      { destruct (escapeHtml_class x) eqn:E; [|done].
        specialize (Hclean x E). simpl in Hclean.
        by rewrite Ascii.eqb_refl in Hclean. }
      unfold escaped_char. rewrite Hx, app_String, app_EmptyString_l. f_equal.
      apply IH. intros m Hm. specialize (Hclean m Hm). simpl in Hclean.
      by apply orb_false_iff in Hclean as [_ ?]. }
  assert (∀ t, occurs "&" (escapeHtml t) = false → escapeHtml t = t) as Hamp.
  { induction t as [|x t IH]; [done|]. rewrite escapeHtml_cons, occurs_app.
    intros [Hx Ht]%orb_false_iff. rewrite (IH Ht).
    destruct (escaped_char_cases x)
      as [[_ E]|[[_ E]|[[_ E]|[[_ E]|[[_ E]|(_ & E & _)]]]]];
      rewrite E in Hx |- *; done. }
  split; [apply Hfix|]. rewrite <- Hfix. split.
  - intros H. apply Hamp. by apply (proj1 (Hfix (escapeHtml text)) H).
  - intros H. by rewrite !H.
Qed.

(** ** The retry loop, whatever the parser does *)

(** A run of the loop from [attemptCount]: the number [n] of requests it
    makes, the waits in between, and where its outcome comes from. *)
Lemma while_loop_run parseURL feed fuel attemptCount w :
  0 <= attemptCount <= maxRetries →
  (Z.to_nat (maxRetries + 1 - attemptCount) <= fuel)%nat →
  ∃ (n : nat) (delays : list Z),
    (1 <= n <= Z.to_nat (maxRetries + 1 - attemptCount))%nat
    ∧ List.length delays = (n - 1)%nat
    ∧ (while_loop parseURL fuel feed attemptCount w).2
      = after_fetch (replicate n (ParseURL feed)) delays w
    ∧ (∀ (k : nat) d, delays !! k = Some d →
         ∃ error, parseURL (List.length (requests w) + k)%nat feed = inl error
                  ∧ is429Error error = true ∧ d = delayMs error)
    ∧ match (while_loop parseURL fuel feed attemptCount w).1 with
      | Ok out => parseURL (List.length (requests w) + (n - 1))%nat feed = inr out
      | Throw error =>
          parseURL (List.length (requests w) + (n - 1))%nat feed = inl error
          ∧ (is429Error error = false
             ∨ n = Z.to_nat (maxRetries + 1 - attemptCount))
      | OutOfFuel => False
      end.
Proof.
  revert attemptCount w. induction fuel as [|fuel IH]; intros attemptCount w Hac Hfuel.
  { unfold maxRetries in *. lia. }
  cbn [while_loop]. destruct (Z.leb_spec attemptCount maxRetries) as [_|?]; [|lia].
  unfold bind.
  destruct (parseURL (List.length (requests w)) feed) as [error|out] eqn:E.
  - destruct (is429Error error) eqn:E429;
      [destruct (Z.le_gt_cases (attemptCount + 1) maxRetries) as [Hle|Hgt]|].
    + rewrite (iteration_retry _ _ _ _ error) by done.
      destruct (IH (attemptCount + 1) (after_fetch [ParseURL feed] [delayMs error] w))
        as (n & delays & Hn & Hlen & Hw & Hdelays & Hout); [lia | lia |].
      exists (S n), (delayMs error :: delays).
      rewrite after_fetch_requests, length_app in Hout, Hdelays. simpl in Hout, Hdelays.
      split; [lia|]. split; [simpl; lia|]. split; [|split].
      * rewrite Hw, after_fetch_after_fetch. done.
      * intros [|k] d Hk.
        -- injection Hk as <-. exists error. by rewrite Nat.add_0_r.
        -- destruct (Hdelays k d Hk) as (e & He & ? & ?). exists e.
           split; [|done]. rewrite <- He. f_equal. lia.
      * replace (List.length (requests w) + (S n - 1))%nat
          with (List.length (requests w) + 1 + (n - 1))%nat by lia.
        destruct (while_loop _ _ _ _ _).1 as [out|e|]; [done| |done].
        destruct Hout as [He [?|Hn']]; (split; [done|]); [by left|].
        right. lia.
    + rewrite (iteration_throw _ _ _ _ error) by (done || (right; lia)).
      exists 1%nat, []. simpl. rewrite Nat.add_0_r.
      split; [unfold maxRetries in *; lia|]. repeat split; try done.
      right. unfold maxRetries in *. lia.
    + rewrite (iteration_throw _ _ _ _ error) by (done || by left).
      exists 1%nat, []. simpl. rewrite Nat.add_0_r.
      split; [unfold maxRetries in *; lia|]. repeat split; try done. by left.
  - rewrite (iteration_success _ _ _ _ out) by done.
    exists 1%nat, []. simpl. rewrite Nat.add_0_r.
    split; [unfold maxRetries in *; lia|]. by repeat split.
Qed.

(** X7: whatever the parser does, a call of [getRSSFeed] makes at least
    one and at most seven requests, all for its feed, waits once between
    two requests and not after the last, and each wait follows a
    rate-limit rejection and lasts what that rejection asks for; the call
    touches nothing else. *)
Theorem getRSSFeed_requests_and_waits
    (parseURL : nat → string → Thrown + Output) (feed : string) (w : World) :
  ∃ (n : nat) (delays : list Z),
    (1 <= n <= 7)%nat
    ∧ List.length delays = (n - 1)%nat
    ∧ (getRSSFeed parseURL feed w).2
      = after_fetch (replicate n (ParseURL feed)) delays w
    ∧ (∀ (k : nat) d, delays !! k = Some d →
         ∃ error, parseURL (List.length (requests w) + k)%nat feed = inl error
                  ∧ is429Error error = true ∧ d = delayMs error).
Proof.
  destruct (while_loop_run parseURL feed 7 0 w) as (n & delays & Hn & Hlen & Hw & Hd & _).
  - unfold maxRetries. lia.
  - done.
  - change (Z.to_nat (maxRetries + 1 - 0)) with 7%nat in Hn.
    exists n, delays. repeat split; try done; lia.
Qed.

(** X8: the outcome of [getRSSFeed] is always that of its last request:
    it returns what the last request resolved to, or throws what the
    last request rejected with, and it throws only an error that is not a
    rate-limit signal or the error of the seventh request.  The loop
    never runs out, and the error of line 60 is never the function's
    own. *)
Theorem getRSSFeed_outcome_is_last_request
    (parseURL : nat → string → Thrown + Output) (feed : string) (w : World) :
  let last := (List.length (requests (getRSSFeed parseURL feed w).2) - 1)%nat in
  match (getRSSFeed parseURL feed w).1 with
  | Ok out => parseURL last feed = inr out
  | Throw error =>
      parseURL last feed = inl error
      ∧ (is429Error error = false
         ∨ List.length (requests (getRSSFeed parseURL feed w).2)
           = (List.length (requests w) + 7)%nat)
  | OutOfFuel => False
  end.
Proof.
  destruct (while_loop_run parseURL feed 7 0 w) as (n & delays & Hn & _ & Hw & _ & Hout).
  - unfold maxRetries. lia.
  - done.
  - unfold getRSSFeed. rewrite Hw, after_fetch_requests, length_app, length_replicate.
    change (Z.to_nat (maxRetries + 1 - 0)) with 7%nat in Hn, Hout. cbv zeta.
    replace (List.length (requests w) + n - 1)%nat
      with (List.length (requests w) + (n - 1))%nat by lia.
    destruct (while_loop _ _ _ _ _).1 as [out|e|]; [done| |done].
    destruct Hout as [He [?|Hn']]; (split; [done|]); [by left|].
    right. lia.
Qed.

(** ** The writers on a list that is not empty *)

(** X9: [buildFeed] returns one item for each post, taken from the posts
    in the order in which it leaves the caller's array; that order is a
    rearrangement of the order it found, with the most recent post first
    and posts of one date in their former order when every date
    parses. *)
Theorem buildFeed_items_follow_the_sorted_array
    (Date_parse : string → option Z) (toUTCString : option Z → string)
    (posts : ref) (w : World) :
  ∃ w',
    buildFeed Date_parse toUTCString posts w
    = (Ok (List.map (feed_item Date_parse toUTCString) (array_at posts w')), w')
    ∧ Permutation (array_at posts w') (array_at posts w)
    ∧ (∀ r, r ≠ posts → arrays w' !! r = arrays w !! r)
    ∧ files w' = files w ∧ requests w' = requests w
    ∧ (Forall (valid_date Date_parse) (array_at posts w) →
       StronglySorted (not_older Date_parse) (array_at posts w')
       ∧ ∀ t, List.filter (λ p, bool_decide (Date_parse (Post.date p) = Some t))
                (array_at posts w')
              = List.filter (λ p, bool_decide (Date_parse (Post.date p) = Some t))
                  (array_at posts w)).
Proof.
  exists (set_arrays (insert posts (sort Date_parse (array_at posts w))) w). split.
  - unfold buildFeed, array_sort, bind, read_array, write_array, ret. simpl.
    unfold array_at. simpl. by rewrite lookup_insert_eq.
  - unfold array_at. simpl. rewrite lookup_insert_eq. simpl.
    split; [apply sort_Permutation|]. split.
    { intros r Hne. by rewrite lookup_insert_ne. }
    split; [done|]. split; [done|]. intros Hvalid.
    split; [by apply sort_sorted | intros t; by apply sort_stable].
Qed.

Lemma forallb_valid_take Date_parse n l :
  Forall (valid_date Date_parse) l →
  forallb (λ post, bool_decide (is_Some (Date_parse (Post.date post)))) (take n l) = true.
Proof.
  intros H. apply forallb_forall. intros post Hin%list_elem_of_In.
  apply bool_decide_eq_true.
  apply (proj1 (Forall_forall (valid_date Date_parse) (take n l))
           (Forall_take _ _ _ H) post Hin).
Qed.

(** With dates that parse the HTML writer writes its file. *)
Lemma writeHtmlFeed_valid Date_parse htmlContent feedName posts maxArticles w l :
  default [] (arrays w !! posts) = l → l ≠ [] → Forall (valid_date Date_parse) l →
  writeHtmlFeed Date_parse htmlContent feedName posts maxArticles w
  = (Ok tt,
     set_files (insert ("./static/" +:+ feedName +:+ ".html")
                  (htmlContent feedName (take maxArticles (sort Date_parse l))))
       (set_arrays (insert posts (sort Date_parse l)) (entered Html feedName l w))).
Proof.
  intros H Hne Hvalid. unfold writeHtmlFeed, bind, enter, read_array. simpl. rewrite H.
  destruct l as [|x l]; [done|]. simpl List.length. cbn [Nat.eqb].
  unfold array_sort, bind, read_array, write_array, ret, writeFile. simpl.
  rewrite H. by rewrite forallb_valid_take by by apply sort_valid.
Qed.



Lemma sort_length Date_parse l :
  List.length (sort Date_parse l) = List.length l.
Proof. apply Permutation_length, sort_Permutation. Qed.



Lemma StronglySorted_app_cross {A} (R : A → A → Prop) (l1 l2 : list A) :
  StronglySorted R (l1 ++ l2) → ∀ a b, a ∈ l1 → b ∈ l2 → R a b.
Proof.
  induction l1 as [|x l1 IH]; intros Hsorted a b Ha Hb.
  - by apply elem_of_nil in Ha.
  - simpl in Hsorted. apply StronglySorted_inv in Hsorted as [Hrest Hx].
    apply elem_of_cons in Ha as [->|Ha]; [|by apply IH].
    apply (proj1 (Forall_forall _ _) Hx). apply elem_of_app. by right.
Qed.

(** X12: with dates that parse, the page of [writeHtmlFeed] shows the
    first [maxArticles] posts of the sorted array, that is
    min(maxArticles, number of posts) posts, and no post that it leaves
    out is more recent than one that it shows. *)
Theorem writeHtmlFeed_shows_the_most_recent
    (Date_parse : string → option Z) (htmlContent : string → list Post.t → string)
    (feedName : string) (posts : ref) (maxArticles : nat) (w : World) :
  array_at posts w ≠ [] →
  Forall (valid_date Date_parse) (array_at posts w) →
  ∃ w' shown,
    writeHtmlFeed Date_parse htmlContent feedName posts maxArticles w = (Ok tt, w')
    ∧ files w' = <[ html_path feedName := htmlContent feedName shown ]> (files w)
    ∧ array_at posts w' = shown ++ drop maxArticles (array_at posts w')
    ∧ Permutation (array_at posts w') (array_at posts w)
    ∧ List.length shown = Nat.min maxArticles (List.length (array_at posts w))
    ∧ ∀ a b, a ∈ shown → b ∈ drop maxArticles (array_at posts w') →
             not_older Date_parse a b.
Proof.
  intros Hne Hvalid.
  exists (set_files (insert ("./static/" +:+ feedName +:+ ".html")
                  (htmlContent feedName
                     (take maxArticles (sort Date_parse (array_at posts w)))))
            (set_arrays (insert posts (sort Date_parse (array_at posts w)))
               (entered Html feedName (array_at posts w) w))),
    (take maxArticles (sort Date_parse (array_at posts w))).
  split; [by apply writeHtmlFeed_valid|]. split; [done|].
  assert (array_at posts
            (set_files (insert ("./static/" +:+ feedName +:+ ".html")
                  (htmlContent feedName
                     (take maxArticles (sort Date_parse (array_at posts w)))))
               (set_arrays (insert posts (sort Date_parse (array_at posts w)))
                  (entered Html feedName (array_at posts w) w)))
          = sort Date_parse (array_at posts w)) as ->.
  { unfold array_at at 1. simpl. by rewrite lookup_insert_eq. }
  split; [by rewrite take_drop|]. split; [apply sort_Permutation|].
  split; [by rewrite length_take, sort_length|].
  apply StronglySorted_app_cross. rewrite take_drop. by apply sort_sorted.
Qed.

Lemma writeHtmlFeed_shows_the_most_recent_witness :
  ∃ w',
    writeHtmlFeed ISO.parse (λ _ shown, String.concat "," (List.map Post.link shown))
      "tech" 0%nat 2
      (set_arrays (insert 0%nat [post_tech_older; post_ai; post_tech_newer]) empty_world)
    = (Ok tt, w')
    ∧ files w' !! "./static/tech.html"
      = Some "https://example.com/9,https://example.com/1".
Proof.
  destruct (writeHtmlFeed_shows_the_most_recent ISO.parse
              (λ _ shown, String.concat "," (List.map Post.link shown)) "tech" 0%nat 2
              (set_arrays (insert 0%nat [post_tech_older; post_ai; post_tech_newer])
                 empty_world))
    as (w' & shown & Hrun & _).
  - discriminate.
  - repeat constructor; by eexists.
  - exists w'. split; [exact Hrun|].
    assert (w' = (writeHtmlFeed ISO.parse
                    (λ _ shown, String.concat "," (List.map Post.link shown)) "tech"
                    0%nat 2
                    (set_arrays (insert 0%nat [post_tech_older; post_ai; post_tech_newer])
                       empty_world)).2) as -> by (by rewrite Hrun).
    by vm_compute.
Defined.

(** ** The files of the writers *)

Lemma string_app_inj_r (a b s : string) : a +:+ s = b +:+ s → a = b.
Proof.
  revert b. induction a as [|x a IH]; intros [|y b] H.
  - done.
  - rewrite app_String, app_EmptyString_l in H. apply (f_equal String.length) in H.
    simpl in H. rewrite string_app_length in H. lia.
  - rewrite app_String, app_EmptyString_l in H. apply (f_equal String.length) in H.
    simpl in H. rewrite string_app_length in H. lia.
  - rewrite !app_String in H. injection H as -> H. f_equal. by apply IH.
Qed.

Lemma rss_suffix_is_not_html_suffix (a b : string) : a +:+ ".rss" ≠ b +:+ ".html".
Proof.
  revert b. induction a as [|x a IH]; intros [|y b] H.
  - discriminate.
  - rewrite app_String in H. injection H as _ H.
    apply (f_equal String.length) in H. rewrite string_app_length in H.
    simpl in H. lia.
  - rewrite app_String in H. injection H as _ H. destruct a as [|x' a].
    + discriminate.
    + apply (f_equal String.length) in H. rewrite app_String in H. simpl in H.
      rewrite string_app_length in H. simpl in H. lia.
  - rewrite !app_String in H. injection H as _ H. by apply (IH b).
Qed.

Lemma rss_path_inj a b : rss_path a = rss_path b → a = b.
Proof.
  unfold rss_path. intros H. apply (String.app_inj "./static/") in H.
  by apply string_app_inj_r in H.
Qed.

Lemma html_path_inj a b : html_path a = html_path b → a = b.
Proof.
  unfold html_path. intros H. apply (String.app_inj "./static/") in H.
  by apply string_app_inj_r in H.
Qed.

Lemma rss_path_not_html_path a b : rss_path a ≠ html_path b.
Proof.
  unfold rss_path, html_path. intros H. apply (String.app_inj "./static/") in H.
  by apply rss_suffix_is_not_html_suffix in H.
Qed.

(** The files after a call of a writer, whatever its outcome. *)
Lemma writeRssFeed_files Date_parse xml feedName posts w :
  files (writeRssFeed Date_parse xml feedName posts w).2 = files w
  ∨ ∃ feed,
      files (writeRssFeed Date_parse xml feedName posts w).2
      = <[ rss_path feedName := feed ]> (files w).
Proof.
  destruct (decide (array_at posts w = [])) as [Hnil|Hne].
  - left. by rewrite writeRssFeed_empty.
  - right. rewrite (writeRssFeed_nonempty _ _ _ _ _ (array_at posts w)) by done.
    by eexists.
Qed.

Lemma writeHtmlFeed_files Date_parse htmlContent feedName posts maxArticles w :
  files (writeHtmlFeed Date_parse htmlContent feedName posts maxArticles w).2 = files w
  ∨ ∃ page,
      files (writeHtmlFeed Date_parse htmlContent feedName posts maxArticles w).2
      = <[ html_path feedName := page ]> (files w).
Proof.
  unfold writeHtmlFeed, bind, enter, read_array. simpl.
  destruct (List.length (default [] (arrays w !! posts)) =? 0)%nat; [by left|].
  unfold array_sort, bind, read_array, write_array, ret, writeFile, throw. simpl.
  destruct (forallb _ _); [right; by eexists | by left].
Qed.

(** X13: a writer touches no file but its own: the RSS writer of one
    feed leaves the RSS file of every other feed and every HTML file as
    they are, the HTML writer leaves the HTML file of every other feed
    and every RSS file as they are, whatever the outcome of the call. *)
Theorem writers_touch_only_their_own_file
    (Date_parse : string → option Z) (xml htmlContent : string → list Post.t → string)
    (feedName : string) (posts : ref) (maxArticles : nat) (w : World) :
  (∀ other, other ≠ feedName →
     files (writeRssFeed Date_parse xml feedName posts w).2 !! rss_path other
     = files w !! rss_path other)
  ∧ (∀ any,
       files (writeRssFeed Date_parse xml feedName posts w).2 !! html_path any
       = files w !! html_path any)
  ∧ (∀ other, other ≠ feedName →
       files (writeHtmlFeed Date_parse htmlContent feedName posts maxArticles w).2
         !! html_path other
       = files w !! html_path other)
  ∧ (∀ any,
       files (writeHtmlFeed Date_parse htmlContent feedName posts maxArticles w).2
         !! rss_path any
       = files w !! rss_path any).
Proof.
  split; [|split; [|split]].
  - intros other Hne.
    destruct (writeRssFeed_files Date_parse xml feedName posts w) as [->|[feed ->]];
      [done|].
    apply lookup_insert_ne. intros H%rss_path_inj. congruence.
  - intros any.
    destruct (writeRssFeed_files Date_parse xml feedName posts w) as [->|[feed ->]];
      [done|].
    apply lookup_insert_ne, rss_path_not_html_path.
  - intros other Hne.
    destruct (writeHtmlFeed_files Date_parse htmlContent feedName posts maxArticles w)
      as [->|[page ->]]; [done|].
    apply lookup_insert_ne. intros H%html_path_inj. congruence.
  - intros any.
    destruct (writeHtmlFeed_files Date_parse htmlContent feedName posts maxArticles w)
      as [->|[page ->]]; [done|].
    apply lookup_insert_ne. intros H. symmetry in H. by apply rss_path_not_html_path in H.
Qed.

(** ** One topic of the aggregator *)

Lemma for_of_push_keeps f isoDate news w w' :
  for_of news (λ currentNews, push f [ {|
      Post.title := News.title currentNews; Post.link := News.link currentNews;
      Post.content := News.content currentNews; Post.date := isoDate |} ]) w
  = (Ok tt, w') →
  files w' = files w ∧ timeouts w' = timeouts w.
Proof.
  revert w. induction news as [|n news IH]; intros w H.
  - by injection H as <-.
  - cbn [for_of] in H. apply bind_Ok in H as ([] & w1 & Hpush & Hrest).
    injection Hpush as <-. by apply IH in Hrest as [-> ->].
Qed.

Lemma items_loop_keeps axios_get JSDOM f items w w' :
  for_of items (item_body axios_get JSDOM f) w = (Ok tt, w') →
  files w' = files w ∧ timeouts w' = timeouts w.
Proof.
  revert w. induction items as [|item items IH]; intros w H.
  - by injection H as <-.
  - cbn [for_of] in H. apply bind_Ok in H as ([] & w1 & Hitem & Hrest).
    apply IH in Hrest as [-> ->]. unfold item_body in Hitem.
    destruct (JS.truthy_opt (Item.link item) && JS.truthy_opt (Item.isoDate item)).
    + apply bind_Ok in Hitem as (news & w0 & Hfetch & Hpush).
      rewrite fetchNews_fetched in Hfetch. injection Hfetch as _ <-.
      by apply for_of_push_keeps in Hpush as [-> ->].
    + by injection Hitem as <-.
Qed.

(** The run of the items of a feed: the world it ends in. *)
Lemma items_loop_run axios_get JSDOM Date_parse cutoff out (f : ref) w :
  ∃ w3,
    for_of (recentItems Date_parse cutoff out) (item_body axios_get JSDOM f) w
    = (Ok tt, w3)
    ∧ extends f
        (collected axios_get JSDOM (List.length (requests w))
           (recentItems Date_parse cutoff out))
        (List.flat_map item_requests (recentItems Date_parse cutoff out)) w w3
    ∧ files w3 = files w ∧ timeouts w3 = timeouts w.
Proof.
  destruct (items_loop_extends axios_get JSDOM f
              (recentItems Date_parse cutoff out) w) as (w3 & Hrun & Hext).
  exists w3. split; [done|]. split; [done|]. by eapply items_loop_keeps.
Qed.

Section TopicRun.

Variable parseURL : nat → string → Thrown + Output.
Variable axios_get : nat → string → Thrown + string.
Variable JSDOM : string → Thrown + Node.
Variable Date_parse : string → option Z.
Variable xml : string → list Post.t → string.
Variable htmlContent : string → list Post.t → string.

(** A topic whose fetch throws, throws the same. *)
Lemma feed_body_fetch_throws cutoff (d : ref) name w error w2 :
  getRSSFeed parseURL (topic_url name) (allocated w) = (Throw error, w2) →
  feed_body parseURL axios_get JSDOM Date_parse xml htmlContent cutoff d name w
  = (Throw error, w2).
Proof.
  intros H. unfold feed_body, bind at 1, new_array.
  fold (allocated w). fold (topic_url name). unfold bind at 1. by rewrite H.
Qed.

(** A topic that collects nothing throws in its RSS writer. *)
Lemma feed_body_no_posts cutoff (d : ref) name w out w2 :
  getRSSFeed parseURL (topic_url name) (allocated w) = (Ok out, w2) →
  collected axios_get JSDOM (List.length (requests w2))
    (recentItems Date_parse cutoff out) = [] →
  ∃ w',
    feed_body parseURL axios_get JSDOM Date_parse xml htmlContent cutoff d name w
    = (Throw (no_posts name), w')
    ∧ files w' = files w
    ∧ handed w' = handed w ++ [ {| writer := Rss; feedName := name; posts := [] |} ]
    ∧ requests w'
      = requests w2 ++ List.flat_map item_requests (recentItems Date_parse cutoff out).
Proof.
  intros Hfetch Hnone.
  pose proof Hfetch as Hw2. apply while_loop_after_fetch in Hw2 as (reqs & delays & ->).
  destruct (items_loop_run axios_get JSDOM Date_parse cutoff out (next_ref w)
              (after_fetch reqs delays (allocated w)))
    as (w3 & Hitems & (Ha & Ho & Hh & Hn & Hr) & Hf & Ht).
  rewrite Hnone, app_nil_r in Ha. simpl in Ha, Hh, Hn, Hf. rewrite lookup_insert_eq in Ha.
  simpl in Ha.
  exists (entered Rss name [] w3).
  split; [|simpl; by rewrite Hf, Hh, Hr].
  unfold feed_body, bind at 1, new_array.
  fold (allocated w). fold (topic_url name). unfold bind at 1. rewrite Hfetch.
  unfold bind at 1. simpl next_ref in Hitems |- *. rewrite Hitems.
  unfold bind at 1. by rewrite writeRssFeed_empty.
Qed.

(** A topic that collects at least one post completes: both its files
    are written. *)
Lemma feed_body_completes cutoff (d : ref) name w out w2 :
  (d < next_ref w)%nat →
  getRSSFeed parseURL (topic_url name) (allocated w) = (Ok out, w2) →
  collected axios_get JSDOM (List.length (requests w2))
    (recentItems Date_parse cutoff out) ≠ [] →
  ∃ w',
    feed_body parseURL axios_get JSDOM Date_parse xml htmlContent cutoff d name w
    = (Ok tt, w')
    ∧ ∃ A, A = collected axios_get JSDOM (List.length (requests w2))
                 (recentItems Date_parse cutoff out)
        ∧ files w'
          = <[ html_path name := htmlContent name (take 50 (sort Date_parse A)) ]>
              (<[ rss_path name := xml_declaration +:+ xml name (sort Date_parse A) ]>
                 (files w))
        ∧ array_at d w' = array_at d w ++ sort Date_parse A
        ∧ requests w'
          = requests w2
            ++ List.flat_map item_requests (recentItems Date_parse cutoff out)
        ∧ next_ref w' = S (next_ref w).
Proof.
  intros Hd Hfetch Hsome.
  pose proof Hfetch as Hw2. apply while_loop_after_fetch in Hw2 as (reqs & delays & ->).
  destruct (items_loop_run axios_get JSDOM Date_parse cutoff out (next_ref w)
              (after_fetch reqs delays (allocated w)))
    as (w3 & Hitems & (Ha & Ho & Hh & Hn & Hr) & Hf & Ht).
  simpl in Ha, Ho, Hh, Hn, Hf, Hitems. rewrite lookup_insert_eq in Ha. simpl in Ha.
  set (A := collected axios_get JSDOM _ _) in *.
  assert (Forall (valid_date Date_parse) A) as Hvalid.
  { apply (collected_valid _ _ _ cutoff), recentItems_recent. }
  eexists. split.
  - unfold feed_body, bind at 1, new_array.
    fold (allocated w). fold (topic_url name). unfold bind at 1. rewrite Hfetch.
    unfold bind at 1. simpl next_ref. rewrite Hitems.
    unfold bind at 1. rewrite (writeRssFeed_nonempty _ _ _ _ _ A) by done.
    unfold bind at 1.
    rewrite (writeHtmlFeed_valid _ _ _ _ _ _ (sort Date_parse A)).
    + unfold bind at 1. unfold read_array at 1. reflexivity.
    + simpl. by rewrite lookup_insert_eq.
    + intros Hs. by apply sort_nil_inv in Hs.
    + by apply sort_valid.
  - exists A. split; [done|]. unfold array_at, rss_path, html_path. simpl.
    rewrite Hf, Hr, Hn. rewrite lookup_insert_eq. simpl.
    rewrite !lookup_insert_eq. simpl.
    rewrite !lookup_insert_ne by lia. rewrite Ho by lia.
    rewrite lookup_insert_ne by lia.
    rewrite sort_idempotent by done. done.
Qed.

End TopicRun.

(** ** A run that stops *)










(** ** A topic that completes *)



Lemma collected_dates axios_get JSDOM k items :
  Forall (λ post, ∃ item, item ∈ items ∧ Item.isoDate item = Some (Post.date post)
                          ∧ JS.truthy_opt (Item.link item) = true)
         (collected axios_get JSDOM k items).
Proof.
  revert k. induction items as [|item items IH]; intros k; [constructor|].
  simpl. apply Forall_app. split.
  - unfold item_posts, has_link_and_date.
    destruct (JS.truthy_opt (Item.link item)) eqn:El; [|constructor].
    destruct (Item.isoDate item) as [s|] eqn:Es; [|constructor].
    destruct (JS.truthy_opt (Some s)); [|constructor].
    apply Forall_forall. intros post Hin.
    apply list_elem_of_In, in_map_iff in Hin as [n [<- _]].
    exists item. split; [left|]. simpl. by rewrite Es.
  - eapply Forall_impl; [apply IH|]. intros post (it & Hin & ?).
    exists it. split; [by right | done].
Qed.

(** X18: the loop over the items of a feed never throws; it asks for one
    page for each item that has a link and a date, in the order of the
    feed, and every post it appends to the topic's list carries the date
    of such an item. *)
Theorem item_loop_requests_one_page_per_linked_item
    (axios_get : nat → string → Thrown + string) (JSDOM : string → Thrown + Node)
    (feedNews : ref) (items : list Item.t) (w : World) :
  ∃ w' added,
    for_of items (item_body axios_get JSDOM feedNews) w = (Ok tt, w')
    ∧ requests w'
      = requests w
        ++ List.map AxiosGet
             (List.map (λ item, default EmptyString (Item.link item))
                (List.filter has_link_and_date items))
    ∧ array_at feedNews w' = array_at feedNews w ++ added
    ∧ Forall (λ post, ∃ item, item ∈ items ∧ Item.isoDate item = Some (Post.date post)
                              ∧ JS.truthy_opt (Item.link item) = true) added
    ∧ files w' = files w ∧ handed w' = handed w.
Proof.
  destruct (items_loop_extends axios_get JSDOM feedNews items w)
    as (w' & Hrun & Ha & _ & Hh & _ & Hr).
  exists w', (collected axios_get JSDOM (List.length (requests w)) items).
  split; [done|]. split; [|split; [done|split; [apply collected_dates|]]].
  - rewrite Hr. f_equal. clear. induction items as [|item items IH]; [done|].
    simpl. rewrite IH. unfold item_requests. by destruct (has_link_and_date item).
  - split; [|done]. by eapply items_loop_keeps.
Qed.

(** ** The lookback window *)

Lemma filter_sublist_impl {A} (f g : A → bool) (l : list A) :
  (∀ x, f x = true → g x = true) → List.filter f l `sublist_of` List.filter g l.
Proof.
  intros Himpl. induction l as [|x l IH]; simpl; [constructor|].
  destruct (f x) eqn:Ef.
  - rewrite (Himpl x Ef). by constructor.
  - destruct (g x); [by constructor | done].
Qed.

(** X19: a longer lookback never loses an item: with the same clock, the
    items kept for a lookback of [d1] days are among those kept, in the
    same order, for any lookback [d2 >= d1] whose cutoff is a date. *)
Theorem longer_lookback_keeps_more
    (Date_parse : string → option Z) (now d1 d2 : Z) (rssNews : Output) :
  d1 <= d2 →
  is_Some (cutoffDate now (Some d2)) →
  recentItems Date_parse (cutoffDate now (Some d1)) rssNews
  `sublist_of` recentItems Date_parse (cutoffDate now (Some d2)) rssNews.
Proof.
  intros Hle [c2 Hc2]. unfold recentItems. apply filter_sublist_impl.
  intros item. rewrite !recent_spec.
  intros (s & t & c1 & Hs & Hne & Ht & Hc1 & Hct).
  exists s, t, c2. repeat split; try done.
  simpl in Hc1, Hc2. unfold JS.TimeClip in Hc1, Hc2.
  destruct (Z.abs (now - d1 * JS.msPerDay) <=? 8640000000000000); [|done].
  destruct (Z.abs (now - d2 * JS.msPerDay) <=? 8640000000000000); [|done].
  injection Hc1 as <-. injection Hc2 as <-. unfold JS.msPerDay in *. lia.
Qed.

Lemma longer_lookback_keeps_more_witness :
  recentItems ISO.parse (cutoffDate test_now (Some 3))
    {| items := [item_2_days; item_10_days; item_5_days] |}
  `sublist_of`
  recentItems ISO.parse (cutoffDate test_now (Some 7))
    {| items := [item_2_days; item_10_days; item_5_days] |}.
Proof.
  apply (longer_lookback_keeps_more ISO.parse test_now 3 7); [lia | by eexists].
Defined.

(** ** A run that completes *)

Section CompletedRun.

Variable parseURL : nat → string → Thrown + Output.
Variable axios_get : nat → string → Thrown + string.
Variable JSDOM : string → Thrown + Node.
Variable Date_parse : string → option Z.
Variable xml : string → list Post.t → string.
Variable htmlContent : string → list Post.t → string.

Lemma feed_body_files cutoff (d : ref) name w w' :
  (d < next_ref w)%nat →
  feed_body parseURL axios_get JSDOM Date_parse xml htmlContent cutoff d name w
  = (Ok tt, w') →
  next_ref w' = S (next_ref w)
  ∧ ∃ feed page,
      files w' = <[ html_path name := page ]> (<[ rss_path name := feed ]> (files w)).
Proof.
  intros Hd Hrun.
  destruct (getRSSFeed parseURL (topic_url name) (allocated w)) as [[out|error|] w2]
    eqn:Hfetch.
  - destruct (decide (collected axios_get JSDOM (List.length (requests w2))
                        (recentItems Date_parse cutoff out) = [])) as [Hnone|Hsome].
    + destruct (feed_body_no_posts parseURL axios_get JSDOM Date_parse xml htmlContent
                  cutoff d name w out w2 Hfetch Hnone) as (? & Hthrow & _).
      rewrite Hthrow in Hrun. discriminate.
    + destruct (feed_body_completes parseURL axios_get JSDOM Date_parse xml htmlContent
                  cutoff d name w out w2 Hd Hfetch Hsome)
        as (w'' & Hok & A & _ & Hfiles & _ & _ & Hnext).
      rewrite Hok in Hrun. injection Hrun as <-. split; [done|]. by eexists _, _.
  - rewrite (feed_body_fetch_throws _ _ _ _ _ _ _ _ _ _ error w2) in Hrun by done.
    discriminate.
  - pose proof (getRSSFeed_total parseURL (topic_url name) (allocated w)) as Htotal.
    by rewrite Hfetch in Htotal.
Qed.

Lemma topics_loop_files cutoff (d : ref) topics w w' :
  (d < next_ref w)%nat →
  for_of topics
    (feed_body parseURL axios_get JSDOM Date_parse xml htmlContent cutoff d) w
  = (Ok tt, w') →
  dom (files w')
  = dom (files w)
    ∪ list_to_set (List.flat_map (λ name, [rss_path name; html_path name]) topics).
Proof.
  revert w. induction topics as [|name topics IH]; intros w Hd Hrun.
  - injection Hrun as <-. simpl. by rewrite (right_id_L ∅ (∪)).
  - cbn [for_of] in Hrun. apply bind_Ok in Hrun as ([] & w1 & Hbody & Hrest).
    apply feed_body_files in Hbody as (Hnext & feed & page & Hfiles); [|done].
    apply IH in Hrest; [|lia]. rewrite Hrest, Hfiles, !dom_insert_L. simpl.
    apply set_eq. intros x. rewrite !elem_of_union. tauto.
Qed.

Lemma collected_within cutoff k items :
  Forall (λ item, recent Date_parse cutoff item = true) items →
  Forall (post_within_lookback Date_parse cutoff) (collected axios_get JSDOM k items).
Proof.
  intros Hrecent. eapply Forall_impl; [apply collected_dates|].
  intros post (item & Hin & Hdate & _).
  apply (proj1 (Forall_forall _ _) Hrecent), recent_spec in Hin
    as (s & t & c & Hs & _ & Ht & Hc & Hle).
  exists t, c. rewrite Hs in Hdate. injection Hdate as <-. done.
Qed.

(** What a completed run returns, in terms of the lists that the topics
    collected. *)
Lemma fetchFeeds_over_result topics env now w w' result :
  fetchFeeds_over parseURL axios_get JSDOM Date_parse xml htmlContent topics env now w
  = (Ok result, w') →
  ∃ As : list (list Post.t),
    Forall (λ A, A ≠ [] ∧ collected_from_feed axios_get JSDOM Date_parse
                            (cutoffDate now (MAX_DAYS env)) A) As
    ∧ List.length As = List.length topics
    ∧ result = sort Date_parse (concat (List.map (sort Date_parse) As))
    ∧ concat (List.map (sort Date_parse) As) ≠ []
    ∧ dom (files w')
      = dom (files w)
        ∪ list_to_set (List.flat_map (λ name, [rss_path name; html_path name]) topics)
        ∪ {[ rss_path "feed" ]}.
Proof.
  intros Hrun. unfold fetchFeeds_over in Hrun.
  apply bind_Ok in Hrun as (d & w1 & Hnew & Hrun). injection Hnew as <- <-.
  apply bind_Ok in Hrun as ([] & w2 & Hloop & Hrun).
  pose proof Hloop as Hfiles. apply topics_loop_files in Hfiles; [|simpl; lia].
  apply topics_loop_done in Hloop as (As & Hlen & Hall & _ & Ha & _); [|simpl; lia].
  simpl in Ha, Hfiles. rewrite lookup_insert_eq in Ha. simpl in Ha.
  apply bind_Ok in Hrun as ([] & w3 & Hrss & Hread).
  destruct (decide (concat (List.map (sort Date_parse) As) = [])) as [Hnil|Hne].
  { rewrite writeRssFeed_empty in Hrss by congruence. discriminate. }
  rewrite (writeRssFeed_nonempty _ _ _ _ _ _ Ha Hne) in Hrss. injection Hrss as <-.
  injection Hread as <- <-.
  exists As. split; [done|]. split; [done|]. simpl. rewrite lookup_insert_eq. simpl.
  split; [done|]. split; [done|]. rewrite dom_insert_L, Hfiles.
  unfold rss_path. apply set_eq. intros x. rewrite !elem_of_union. tauto.
Qed.

End CompletedRun.

(** X20: a run that completes has written, beside the files that were
    there, exactly the RSS file and the HTML file of every topic and the
    combined [feed.rss]. *)
Theorem completed_run_writes_every_file
    (parseURL : nat → string → Thrown + Output)
    (axios_get : nat → string → Thrown + string) (JSDOM : string → Thrown + Node)
    (Date_parse : string → option Z) (xml htmlContent : string → list Post.t → string)
    (topics : list string) (env : gmap string string) (now : Z)
    (w w' : World) (result : list Post.t) :
  fetchFeeds_over parseURL axios_get JSDOM Date_parse xml htmlContent topics env now w
  = (Ok result, w') →
  dom (files w')
  = dom (files w)
    ∪ list_to_set (List.flat_map (λ name, [rss_path name; html_path name]) topics)
    ∪ {[ "./static/feed.rss" ]}.
Proof.
  intros Hrun.
  destruct (fetchFeeds_over_result parseURL axios_get JSDOM Date_parse xml htmlContent
              topics env now w w' result Hrun) as (As & _ & _ & _ & _ & Hdom).
  exact Hdom.
Qed.

Lemma completed_run_writes_every_file_witness :
  dom (files two_topics_run.2)
  = {[ "./static/tech.rss"; "./static/tech.html"; "./static/ai.rss";
       "./static/ai.html"; "./static/feed.rss" ]}.
Proof.
  rewrite (completed_run_writes_every_file two_topics_parseURL (λ _ url, inr url)
             (λ data, inr (one_article_page data)) ISO.parse (λ _ _, "<rss/>")
             (λ _ _, "<html/>") ["tech"; "ai"] ∅ test_now empty_world
             two_topics_run.2 [post_ai; post_tech_newer; post_tech_older]).
  - simpl. unfold rss_path, html_path. set_solver.
  - by vm_compute.
Defined.

(** X21: what a completed run returns, and with it what the job summary
    is made from, is not empty, holds only posts whose date is at or
    after the cutoff, and lists them most recent first across all
    topics. *)
Theorem returned_posts_are_recent_and_sorted
    (parseURL : nat → string → Thrown + Output)
    (axios_get : nat → string → Thrown + string) (JSDOM : string → Thrown + Node)
    (Date_parse : string → option Z) (xml htmlContent : string → list Post.t → string)
    (topics : list string) (env : gmap string string) (now : Z)
    (w w' : World) (result : list Post.t) :
  fetchFeeds_over parseURL axios_get JSDOM Date_parse xml htmlContent topics env now w
  = (Ok result, w') →
  result ≠ []
  ∧ Forall (post_within_lookback Date_parse (cutoffDate now (MAX_DAYS env))) result
  ∧ StronglySorted (not_older Date_parse) result.
Proof.
  intros Hrun.
  destruct (fetchFeeds_over_result parseURL axios_get JSDOM Date_parse xml htmlContent
              topics env now w w' result Hrun) as (As & Hall & _ & -> & Hne & _).
  assert (Forall (post_within_lookback Date_parse (cutoffDate now (MAX_DAYS env)))
            (concat (List.map (sort Date_parse) As))) as Hwithin.
  { apply Forall_concat, Forall_forall. intros l Hin.
    apply list_elem_of_In, in_map_iff in Hin as (A & <- & HA%list_elem_of_In).
    apply (proj1 (Forall_forall _ _) Hall) in HA as [_ (k & out & ->)].
    rewrite sort_Permutation. apply collected_within, recentItems_recent. }
  assert (Forall (valid_date Date_parse) (concat (List.map (sort Date_parse) As)))
    as Hvalid.
  { eapply Forall_impl; [exact Hwithin|]. intros post (t & c & Ht & _). by exists t. }
  split; [intros Hs; by apply sort_nil_inv in Hs|].
  split; [by rewrite sort_Permutation | by apply sort_sorted].
Qed.

Lemma returned_posts_are_recent_and_sorted_witness :
  StronglySorted (not_older ISO.parse) [post_ai; post_tech_newer; post_tech_older].
Proof.
  apply (returned_posts_are_recent_and_sorted two_topics_parseURL (λ _ url, inr url)
           (λ data, inr (one_article_page data)) ISO.parse (λ _ _, "<rss/>")
           (λ _ _, "<html/>") ["tech"; "ai"] ∅ test_now empty_world
           two_topics_run.2 [post_ai; post_tech_newer; post_tech_older]).
  by vm_compute.
Defined.

(** ** Waits without a [retry-after] header *)

Lemma all_equal_replicate {A} (c : A) (l : list A) :
  (∀ (k : nat) d, l !! k = Some d → d = c) → l = replicate (List.length l) c.
Proof.
  induction l as [|x l IH]; intros H; [done|]. simpl. f_equal.
  - by apply (H 0%nat).
  - apply IH. intros k d Hk. by apply (H (S k)).
Qed.

(** X22: when no rejection carries a [retry-after] header, as with the
    errors of rss-parser, which are a message and nothing else, every
    wait of [getRSSFeed] is 30 seconds: a call that makes n requests
    waits n-1 times 30 seconds, three minutes at most. *)
Theorem waits_are_30_seconds_without_header
    (parseURL : nat → string → Thrown + Output) (feed : string) (w : World) :
  (∀ k error, parseURL k feed = inl error → retryAfter error = None) →
  ∃ n : nat,
    (1 <= n <= 7)%nat
    ∧ requests (getRSSFeed parseURL feed w).2
      = requests w ++ replicate n (ParseURL feed)
    ∧ timeouts (getRSSFeed parseURL feed w).2
      = timeouts w ++ replicate (n - 1) 30000.
Proof.
  intros Hplain.
  destruct (while_loop_run parseURL feed 7 0 w) as (n & delays & Hn & Hlen & Hw & Hd & _);
    [unfold maxRetries; lia | done |].
  change (Z.to_nat (maxRetries + 1 - 0)) with 7%nat in Hn.
  exists n. split; [lia|]. unfold getRSSFeed. rewrite Hw. simpl. split; [done|].
  f_equal. rewrite <- Hlen. apply all_equal_replicate.
  intros k d Hk. destruct (Hd k d Hk) as (error & Herr & _ & ->).
  unfold delayMs, delaySeconds. by rewrite (Hplain _ _ Herr).
Qed.

Lemma waits_are_30_seconds_without_header_witness :
  timeouts (getRSSFeed (always_rejects error429_message_only) example_feed empty_world).2
  = replicate 6 30000.
Proof.
  destruct (waits_are_30_seconds_without_header
              (always_rejects error429_message_only) example_feed empty_world)
    as (n & _ & Hreq & Hwait).
  - intros k error [= <-]. reflexivity.
  - assert (n = 7%nat) as ->.
    { apply (f_equal List.length) in Hreq. rewrite length_app, length_replicate in Hreq.
      exact (eq_sym Hreq). }
    exact Hwait.
Defined.

(** ** The configured topics *)

(** X23: the combined feed has a file of its own: no configured topic is
    called [feed] and no topic is listed twice, so a completed run of
    [fetchFeeds] in an empty directory leaves 25 files, two for each of
    the twelve topics and [feed.rss]. *)
Theorem fetchFeeds_leaves_25_files
    (parseURL : nat → string → Thrown + Output)
    (axios_get : nat → string → Thrown + string) (JSDOM : string → Thrown + Node)
    (Date_parse : string → option Z) (xml htmlContent : string → list Post.t → string)
    (env : gmap string string) (now : Z) (w w' : World) (result : list Post.t) :
  files w = ∅ →
  fetchFeeds parseURL axios_get JSDOM Date_parse xml htmlContent env now w
  = (Ok result, w') →
  size (dom (files w')) = 25%nat
  ∧ ("./static/feed.rss" ∉ List.map rss_path feeds)
  ∧ NoDup feeds.
Proof.
  intros Hempty Hrun. unfold fetchFeeds in Hrun.
  destruct (fetchFeeds_over_result parseURL axios_get JSDOM Date_parse xml htmlContent
              feeds env now w w' result Hrun) as (As & _ & _ & _ & _ & Hdom).
  rewrite Hdom, Hempty, dom_empty_L. split; [by vm_compute|]. split.
  - intros Hin%list_elem_of_In%in_map_iff. destruct Hin as (name & Hpath & Hin).
    apply (rss_path_inj name "feed") in Hpath. subst name.
    vm_compute in Hin. by intuition.
  - apply NoDup_ListNoDup. vm_compute.
    repeat (constructor; [intros Hin; simpl in Hin; by intuition|]). constructor.
Qed.

Lemma fetchFeeds_leaves_25_files_witness :
  size (dom (files (fetchFeeds two_topics_parseURL (λ _ url, inr url)
                      (λ data, inr (one_article_page data)) ISO.parse
                      (λ _ _, "<rss/>") (λ _ _, "<html/>") ∅ test_now empty_world).2))
  = 25%nat.
Proof.
  assert (∃ result,
            fetchFeeds two_topics_parseURL (λ _ url, inr url)
              (λ data, inr (one_article_page data)) ISO.parse
              (λ _ _, "<rss/>") (λ _ _, "<html/>") ∅ test_now empty_world
            = (Ok result,
               (fetchFeeds two_topics_parseURL (λ _ url, inr url)
                  (λ data, inr (one_article_page data)) ISO.parse
                  (λ _ _, "<rss/>") (λ _ _, "<html/>") ∅ test_now empty_world).2))
    as [result Hrun].
  { eexists. vm_compute. reflexivity. }
  exact (proj1 (fetchFeeds_leaves_25_files _ _ _ _ _ _ _ _ empty_world _ result
                  eq_refl Hrun)).
Defined.

(** ** The article block of the page *)

Lemma count_char_app c a b :
  count_char c (a +:+ b) = (count_char c a + count_char c b)%nat.
Proof.
  induction a as [|x a IH]; [done|]. rewrite app_String. simpl. rewrite IH. lia.
Qed.

Lemma count_char_absent c s : occurs c s = false → count_char c s = 0%nat.
Proof.
  induction s as [|x s IH]; [done|]. simpl.
  intros [-> Hs]%orb_false_iff. by rewrite IH.
Qed.

Lemma count_char_cons c a s :
  count_char c (String a s) = ((if Ascii.eqb a c then 1 else 0) + count_char c s)%nat.
Proof. reflexivity. Qed.

Lemma ascii_eqb_ne (a c : ascii) : c ≠ a → Ascii.eqb a c = false.
Proof. intros H. by destruct (Ascii.eqb_spec a c) as [->|?]. Qed.

Lemma count_char_escapeHtmlAttr c text :
  c ≠ "&"%char → c ≠ "a"%char → c ≠ "m"%char → c ≠ "p"%char → c ≠ ";"%char →
  c ≠ "q"%char → c ≠ "u"%char → c ≠ "o"%char → c ≠ "t"%char → c ≠ "#"%char →
  c ≠ "0"%char → c ≠ "3"%char → c ≠ "9"%char →
  c ≠ double_quote → c ≠ "'"%char →
  count_char c (escapeHtmlAttr text) = count_char c text.
Proof.
  intros. induction text as [|m text IH]; [done|].
  rewrite escapeHtmlAttr_cons, count_char_app, IH, (count_char_cons c m text).
  f_equal. unfold escaped_attr_char.
  destruct (Ascii.eqb_spec m "&") as [->|?].
  { rewrite !count_char_cons, !ascii_eqb_ne by done. reflexivity. }
  destruct (Ascii.eqb_spec m double_quote) as [->|?].
  { rewrite !count_char_cons, !ascii_eqb_ne by done. reflexivity. }
  destruct (Ascii.eqb_spec m "'") as [->|?].
  { rewrite !count_char_cons, !ascii_eqb_ne by done. reflexivity. }
  rewrite count_char_cons. simpl. lia.
Qed.

Lemma count_char_escapeHtml text :
  count_char double_quote (escapeHtml text) = 0%nat
  ∧ count_char "<" (escapeHtml text) = 0%nat
  ∧ count_char ">" (escapeHtml text) = 0%nat.
Proof.
  induction text as [|m text (IH1 & IH2 & IH3)]; [done|].
  rewrite escapeHtml_cons, !count_char_app, IH1, IH2, IH3.
  destruct (escaped_char_cases m)
    as [[-> ->]|[[-> ->]|[[-> ->]|[[-> ->]|[[-> ->]|(_ & -> & ? & ? & ? & ? & ?)]]]]];
    try (by vm_compute).
  simpl.
  destruct (Ascii.eqb_spec m double_quote); [done|].
  destruct (Ascii.eqb_spec m "<"); [done|].
  by destruct (Ascii.eqb_spec m ">").
Qed.

Lemma count_quote_escapeHtmlAttr text :
  count_char double_quote (escapeHtmlAttr text) = 0%nat.
Proof.
  induction text as [|m text IH]; [done|].
  rewrite escapeHtmlAttr_cons, count_char_app, IH. unfold escaped_attr_char.
  destruct (Ascii.eqb_spec m "&") as [->|?]; [done|].
  destruct (Ascii.eqb_spec m double_quote) as [->|?]; [done|].
  destruct (Ascii.eqb_spec m "'") as [->|?]; [done|].
  simpl. by destruct (Ascii.eqb_spec m double_quote).
Qed.

Lemma count_char_concat c sep n blocks :
  count_char c sep = 0%nat →
  Forall (λ block, count_char c block = n) blocks →
  count_char c (String.concat sep blocks) = (n * List.length blocks)%nat.
Proof.
  intros Hsep. induction 1 as [|block blocks Hblock Hblocks IH]; [simpl; lia|].
  destruct blocks as [|block' blocks].
  - change (count_char c block = (n * 1)%nat). lia.
  - change (String.concat sep (block :: block' :: blocks))
      with (block +:+ sep +:+ String.concat sep (block' :: blocks)).
    rewrite (count_char_app c block), (count_char_app c sep), IH, Hsep, Hblock.
    simpl. lia.
Qed.

(** X24: the page's block for a post exists exactly when the post's date
    is a date, and its markup is then the template's own: the block has
    exactly four double quotes, so the link cannot leave the [href] it is
    put in, and its less-than and greater-than signs are the ten of the
    template and those of the link, which stay inside the quoted [href];
    the title and the summary add none.  The blocks of n posts, joined,
    have 4n double quotes. *)
Theorem article_markup_is_the_templates
    (Date_parse : string → option Z) (toISOString : Z → string) :
  (∀ t, occurs double_quote (toISOString t) = false
        ∧ occurs "<" (toISOString t) = false ∧ occurs ">" (toISOString t) = false) →
  (∀ post, is_Some (article_html Date_parse toISOString post)
           ↔ is_Some (Date_parse (Post.date post)))
  ∧ (∀ post block,
       article_html Date_parse toISOString post = Some block →
       count_char double_quote block = 4%nat
       ∧ count_char "<" block = (10 + count_char "<" (Post.link post))%nat
       ∧ count_char ">" block = (10 + count_char ">" (Post.link post))%nat)
  ∧ (∀ sortedPosts,
       is_Some (articles_html Date_parse toISOString sortedPosts)
       ↔ Forall (λ post, is_Some (Date_parse (Post.date post))) sortedPosts)
  ∧ (∀ sortedPosts page,
       articles_html Date_parse toISOString sortedPosts = Some page →
       count_char double_quote page = (4 * List.length sortedPosts)%nat).
Proof.
  intros Hiso.
  assert (∀ post, is_Some (article_html Date_parse toISOString post)
                  ↔ is_Some (Date_parse (Post.date post))) as Hsome.
  { intros post. unfold article_html.
    destruct (Date_parse (Post.date post)) as [t|]; [by split|].
    split; by intros [? ?]. }
  assert (∀ post block,
       article_html Date_parse toISOString post = Some block →
       count_char double_quote block = 4%nat
       ∧ count_char "<" block = (10 + count_char "<" (Post.link post))%nat
       ∧ count_char ">" block = (10 + count_char ">" (Post.link post))%nat)
    as Harticle.
  { intros post block. unfold article_html, line_feed.
    destruct (Date_parse (Post.date post)) as [t|]; [|done].
    cbv zeta. intros [= <-].
    destruct (Hiso t) as (Hq & Hlt & Hgt).
    destruct (count_char_escapeHtml (Post.title post)) as (T1 & T2 & T3).
    destruct (count_char_escapeHtml (Post.content post)) as (C1 & C2 & C3).
    rewrite !count_char_app.
    rewrite !(count_char_absent _ _ Hq), !(count_char_absent _ _ Hlt),
      !(count_char_absent _ _ Hgt), T1, T2, T3, C1, C2, C3,
      (count_quote_escapeHtmlAttr (Post.link post)).
    rewrite !count_char_escapeHtmlAttr by done.
    simpl. repeat split; lia. }
  split; [exact Hsome|]. split; [exact Harticle|]. split.
  - intros sortedPosts. unfold articles_html.
    induction sortedPosts as [|post posts IH].
    + split; [constructor|by eexists].
    + rewrite Forall_cons, <- IH, <- Hsome. cbn [mapM].
      destruct (article_html Date_parse toISOString post) as [block|]; simpl.
      * destruct (mapM (article_html Date_parse toISOString) posts) as [blocks|];
          simpl.
        -- split; [intros _; split; by eexists|by eexists].
        -- split; [by intros [? ?]|by intros [_ [? ?]]].
      * split; [by intros [? ?]|by intros [[? ?] _]].
  - intros sortedPosts page. unfold articles_html.
    destruct (mapM (article_html Date_parse toISOString) sortedPosts)
      as [blocks|] eqn:Hblocks; [|done].
    intros [= <-]. apply mapM_Some in Hblocks.
    rewrite (Forall2_length _ _ _ Hblocks).
    apply count_char_concat; [done|].
    clear -Hblocks Harticle.
    induction Hblocks as [|post block posts blocks Hblock _ IH]; constructor;
      [by destruct (Harticle post block Hblock)|done].
Qed.

(** The run of X24 on a dated post whose title and link carry markup. *)
Lemma article_markup_is_the_templates_witness :
  (∀ t, occurs double_quote ((λ _ : Z, "2024-01-15T12:00:00.000Z") t) = false
        ∧ occurs "<" ((λ _ : Z, "2024-01-15T12:00:00.000Z") t) = false
        ∧ occurs ">" ((λ _ : Z, "2024-01-15T12:00:00.000Z") t) = false)
  ∧ ∃ block,
      article_html ISO.parse (λ _, "2024-01-15T12:00:00.000Z")
        marked_up_post
      = Some block
      ∧ count_char double_quote block = 4%nat
      ∧ count_char "<" block = 11%nat.
Proof.
  assert (∀ t, occurs double_quote ((λ _ : Z, "2024-01-15T12:00:00.000Z") t) = false
               ∧ occurs "<" ((λ _ : Z, "2024-01-15T12:00:00.000Z") t) = false
               ∧ occurs ">" ((λ _ : Z, "2024-01-15T12:00:00.000Z") t) = false)
    as Hiso.
  { intros t. vm_compute. done. }
  split; [exact Hiso|].
  destruct (article_html ISO.parse (λ _, "2024-01-15T12:00:00.000Z")
              marked_up_post) as [block|] eqn:Hblock;
    [|by vm_compute in Hblock].
  exists block. split; [reflexivity|].
  destruct (proj1 (proj2 (article_markup_is_the_templates ISO.parse
                            (λ _, "2024-01-15T12:00:00.000Z") Hiso)) _ block Hblock)
    as (Hq & Hlt & _).
  split; [exact Hq|exact Hlt].
Defined.
